(** * mao.mock.service.js: the request-admission pipeline of the mock service

    A shallow embedding of [src/mao.mock.service.js].  The module-level
    variables of the script ([serviceState], [rateLimitMap], [errorWindow],
    [circuitBreakerState], [circuitBreakerOpenTime], [halfOpenAttempts]) are
    the fields of one record [State]; every function of the script is a
    computation in a small state monad over it.  The two ambient inputs of
    the script, [Date.now()] and [Math.random()], are oracles carried in the
    state: each call consumes the next reading.

    Modelling conventions.
    - Millisecond timestamps returned by [Date.now()] are integers ([Z]).
    - [Math.random()] and everything computed from a draw (outage end time,
      normal-period duration, delay, average response time) is a rational
      ([Q]); IEEE rounding of these products is not modelled.
    - [null] / [undefined] are [None]; JavaScript truthiness is spelled out
      ([truthy_num], [truthy_str]).
    - Logging ([console.log], [logJson]) has no effect on the state and is
      left out; [new Date().toISOString()] fields of the payloads as well.
    - The handler is [async] and suspends once, at [await addDelay()].
      [helloHttp] is a request run alone, from its first statement to its
      response; [helloHttp_enter] and [helloHttp_resume] are the two parts
      the event loop runs to completion, and [run] interleaves the parts of
      several requests. *)

From stdpp Require Import gmap strings list.
From Stdlib Require Import ZArith QArith Lia Lqa.

Local Open Scope Z_scope.

(** ** Configuration (lines 17-38) *)

Record Config := {
  baseSuccessRate : Q;
  outageChance : Q;
  minOutageDuration : Z;
  maxOutageDuration : Z;
  slowResponseChance : Q;
  minSlowDelay : Z;
  maxSlowDelay : Z;
  normalPeriodChance : Q;
  minNormalPeriod : Z;
  maxNormalPeriod : Z;
  serverErrorChance : Q;
  clientErrorChance : Q;
  timeoutChance : Q;
  circuitBreakerThreshold : Z;
  circuitBreakerWindow : Z;
  circuitBreakerRecovery : Z;
  circuitBreakerHalfOpenRequests : Z;
  rateLimitWindowMs : Z;
  rateLimitMax : Z
}.

(** The literal of the script. *)
Definition mao_config : Config := {|
  baseSuccessRate := 95 # 100;
  outageChance := 1 # 10000;
  minOutageDuration := 15000;
  maxOutageDuration := 45000;
  slowResponseChance := 15 # 100;
  minSlowDelay := 500;
  maxSlowDelay := 2000;
  normalPeriodChance := 2 # 1000;
  minNormalPeriod := 300000;
  maxNormalPeriod := 1800000;
  serverErrorChance := 1 # 100;
  clientErrorChance := 5 # 1000;
  timeoutChance := 2 # 1000;
  circuitBreakerThreshold := 15;
  circuitBreakerWindow := 60000;
  circuitBreakerRecovery := 20000;
  circuitBreakerHalfOpenRequests := 2;
  rateLimitWindowMs := 10000;
  rateLimitMax := 50
|}.

(** ** Data model *)

(** [serviceState] (lines 4-14). *)
Record ServiceState := {
  isHealthy : bool;
  lastOutageStart : option Z;
  outageEndTime : option Q;
  normalPeriodStart : Z;
  normalPeriodDuration : option Q;
  requestCount : Z;
  successCount : Z;
  errorCount : Z;
  averageResponseTime : Q
}.

(** A value of [rateLimitMap]. *)
Record RateLimitEntry := { count : Z; start : Z }.

(** [circuitBreakerState] is one of three strings. *)
Inductive BreakerState := CLOSED | OPEN | HALF_OPEN.

(** The oracles: reading [n] of the clock and draw [n] of the generator, and
    how many of each the script has consumed so far. *)
Record World := {
  clock : nat -> Z;
  ticks : nat;
  random : nat -> Q;
  draws : nat
}.

Record State := {
  world : World;
  serviceState : ServiceState;
  rateLimitMap : gmap string RateLimitEntry;
  errorWindow : list Z;
  circuitBreakerState : BreakerState;
  circuitBreakerOpenTime : option Z;
  halfOpenAttempts : Z
}.

(** Field updates. *)
Definition with_world (f : World -> World) (s : State) : State :=
  {| world := f (world s); serviceState := serviceState s;
     rateLimitMap := rateLimitMap s; errorWindow := errorWindow s;
     circuitBreakerState := circuitBreakerState s;
     circuitBreakerOpenTime := circuitBreakerOpenTime s;
     halfOpenAttempts := halfOpenAttempts s |}.

Definition with_serviceState (f : ServiceState -> ServiceState) (s : State) : State :=
  {| world := world s; serviceState := f (serviceState s);
     rateLimitMap := rateLimitMap s; errorWindow := errorWindow s;
     circuitBreakerState := circuitBreakerState s;
     circuitBreakerOpenTime := circuitBreakerOpenTime s;
     halfOpenAttempts := halfOpenAttempts s |}.

Definition with_rateLimitMap
    (f : gmap string RateLimitEntry -> gmap string RateLimitEntry) (s : State) : State :=
  {| world := world s; serviceState := serviceState s;
     rateLimitMap := f (rateLimitMap s); errorWindow := errorWindow s;
     circuitBreakerState := circuitBreakerState s;
     circuitBreakerOpenTime := circuitBreakerOpenTime s;
     halfOpenAttempts := halfOpenAttempts s |}.

Definition with_errorWindow (f : list Z -> list Z) (s : State) : State :=
  {| world := world s; serviceState := serviceState s;
     rateLimitMap := rateLimitMap s; errorWindow := f (errorWindow s);
     circuitBreakerState := circuitBreakerState s;
     circuitBreakerOpenTime := circuitBreakerOpenTime s;
     halfOpenAttempts := halfOpenAttempts s |}.

Definition set_breaker (b : BreakerState) (s : State) : State :=
  {| world := world s; serviceState := serviceState s;
     rateLimitMap := rateLimitMap s; errorWindow := errorWindow s;
     circuitBreakerState := b;
     circuitBreakerOpenTime := circuitBreakerOpenTime s;
     halfOpenAttempts := halfOpenAttempts s |}.

Definition set_openTime (t : option Z) (s : State) : State :=
  {| world := world s; serviceState := serviceState s;
     rateLimitMap := rateLimitMap s; errorWindow := errorWindow s;
     circuitBreakerState := circuitBreakerState s;
     circuitBreakerOpenTime := t;
     halfOpenAttempts := halfOpenAttempts s |}.

Definition set_halfOpenAttempts (n : Z) (s : State) : State :=
  {| world := world s; serviceState := serviceState s;
     rateLimitMap := rateLimitMap s; errorWindow := errorWindow s;
     circuitBreakerState := circuitBreakerState s;
     circuitBreakerOpenTime := circuitBreakerOpenTime s;
     halfOpenAttempts := n |}.

(** ** The state monad of the script *)

Definition M (A : Type) : Type := State -> A * State.

Definition ret {A} (a : A) : M A := fun s => (a, s).

Definition bind {A B} (m : M A) (k : A -> M B) : M B :=
  fun s => let (a, s') := m s in k a s'.

Definition gets {A} (f : State -> A) : M A := fun s => (f s, s).

Definition modify (f : State -> State) : M unit := fun s => (tt, f s).

Notation "'var' x ':=' c ';;' k" := (bind c (fun x => k))
  (at level 10, x name, c at level 99, k at level 200).
Notation "'call' c ';;' k" := (bind c (fun _ => k))
  (at level 10, c at level 99, k at level 200).

(** [Date.now()]: the next reading of the clock. *)
Definition Date_now : M Z := fun s =>
  (clock (world s) (ticks (world s)),
   with_world (fun w => {| clock := clock w; ticks := S (ticks w);
                           random := random w; draws := draws w |}) s).

(** [Math.random()]: the next draw. *)
Definition Math_random : M Q := fun s =>
  (random (world s) (draws (world s)),
   with_world (fun w => {| clock := clock w; ticks := ticks w;
                           random := random w; draws := S (draws w) |}) s).

(** The reading the next [Date.now()] will return. *)
Definition now_of (s : State) : Z := clock (world s) (ticks (world s)).

(** The value the next [Math.random()] will return. *)
Definition draw_of (s : State) : Q := random (world s) (draws (world s)).

(** JavaScript coercions used by the script. *)
Definition Qltb (x y : Q) : bool := negb (Qle_bool y x).

Definition truthy_num (o : option Q) : bool :=
  match o with
  | Some q => negb (Qeq_bool q 0)
  | None => false
  end.

Definition truthy_str (o : option string) : bool :=
  match o with
  | Some s => negb (String.eqb s "")
  | None => false
  end.

(** [null] in a subtraction or comparison is [0]. *)
Definition num_of (o : option Z) : Z := default 0 o.

Definition Qof (o : option Q) : Q := default 0%Q o.

Arguments Qltb : simpl never.
Arguments truthy_num : simpl never.
Arguments truthy_str : simpl never.
Arguments Qof : simpl never.
Arguments Qle_bool : simpl never.
Arguments Qeq_bool : simpl never.
Arguments inject_Z : simpl never.
Arguments Qplus : simpl never.
Arguments Qminus : simpl never.
Arguments Qmult : simpl never.
Arguments Qdiv : simpl never.

(** ** Requests and responses *)

(** The part of the request object the handler reads.  [body_name] is
    [req.body.name] ([None] when there is no body or no such field);
    [query] is [req.query.name] inside [req.query].  [query = None] stands
    for a request object without [query]: reading [req.query.name] then
    throws, which is the fault the [catch] block of the handler answers. *)
Record Request := {
  method : string;
  url : option string;
  path : option string;
  x_forwarded_for : option string;
  remoteAddress : option string;
  body_name : option string;
  query : option (option string)
}.

(** The values of [error_type]. *)
Inductive ErrorType :=
  | rate_limit | service_unavailable | circuit_breaker_open
  | server_error | client_error | timeout | network_failure
  | validation_error | unexpected_error.

(** [service_metrics] of the health payload (the counters only). *)
Record Metrics := {
  total_requests : Z;
  successful_requests : Z;
  failed_requests : Z;
  circuit_breaker_errors : nat;
  half_open_attempts : Z
}.

(** What the handler sends: the code given to [res.status] and the fields of
    the payload that carry a decision of the pipeline. *)
Record Response := {
  res_status : Z;
  message : string;
  error_type : option ErrorType;
  circuit_breaker_state : option BreakerState;
  in_normal_period : option bool;
  service_metrics : option Metrics
}.

Definition error_response (code : Z) (msg : string) (k : ErrorType) : Response :=
  {| res_status := code; message := msg; error_type := Some k;
     circuit_breaker_state := None; in_normal_period := None;
     service_metrics := None |}.

Definition success_response (msg : string) (inNormalPeriod : bool) : Response :=
  {| res_status := 200; message := msg; error_type := None;
     circuit_breaker_state := None; in_normal_period := Some inNormalPeriod;
     service_metrics := None |}.

(** The object [simulateError] returns. *)
Record ErrorScenario := {
  es_status : Z;
  es_error : string;
  es_type : ErrorType
}.

(** Updates of [serviceState]. *)
Definition set_outage (h : bool) (st : option Z) (e : option Q) (ss : ServiceState) : ServiceState :=
  {| isHealthy := h; lastOutageStart := st; outageEndTime := e;
     normalPeriodStart := normalPeriodStart ss;
     normalPeriodDuration := normalPeriodDuration ss;
     requestCount := requestCount ss; successCount := successCount ss;
     errorCount := errorCount ss; averageResponseTime := averageResponseTime ss |}.

Definition set_normalPeriod (st : Z) (d : option Q) (ss : ServiceState) : ServiceState :=
  {| isHealthy := isHealthy ss; lastOutageStart := lastOutageStart ss;
     outageEndTime := outageEndTime ss;
     normalPeriodStart := st; normalPeriodDuration := d;
     requestCount := requestCount ss; successCount := successCount ss;
     errorCount := errorCount ss; averageResponseTime := averageResponseTime ss |}.

Definition set_counters (r s e : Z) (ss : ServiceState) : ServiceState :=
  {| isHealthy := isHealthy ss; lastOutageStart := lastOutageStart ss;
     outageEndTime := outageEndTime ss;
     normalPeriodStart := normalPeriodStart ss;
     normalPeriodDuration := normalPeriodDuration ss;
     requestCount := r; successCount := s; errorCount := e;
     averageResponseTime := averageResponseTime ss |}.

Definition set_averageResponseTime (a : Q) (ss : ServiceState) : ServiceState :=
  {| isHealthy := isHealthy ss; lastOutageStart := lastOutageStart ss;
     outageEndTime := outageEndTime ss;
     normalPeriodStart := normalPeriodStart ss;
     normalPeriodDuration := normalPeriodDuration ss;
     requestCount := requestCount ss; successCount := successCount ss;
     errorCount := errorCount ss; averageResponseTime := a |}.

Section Service.

Variable config : Config.

(** ** Rate limiter (lines 43-54)

    The result is [true] when the request is over the limit. *)
Definition checkRateLimit (ip : string) : M bool :=
  var now := Date_now ;;
  var entry := gets (fun s => rateLimitMap s !! ip) ;;
  match entry with
  | Some e =>
      if now - start e >? rateLimitWindowMs config then
        call modify (with_rateLimitMap (insert ip {| count := 1; start := now |})) ;;
        ret false
      else
        let e' := {| count := count e + 1; start := start e |} in
        call modify (with_rateLimitMap (insert ip e')) ;;
        if count e' >? rateLimitMax config then ret true else ret false
  | None =>
      call modify (with_rateLimitMap (insert ip {| count := 1; start := now |})) ;;
      ret false
  end.

(** ** Outage scheduler (lines 73-103) *)
Definition checkServiceAvailability : M bool :=
  var now := Date_now ;;
  var ss := gets serviceState ;;
  if truthy_num (outageEndTime ss) && Qltb (inject_Z now) (Qof (outageEndTime ss))
  then ret false
  else
    call (if truthy_num (outageEndTime ss) && Qle_bool (Qof (outageEndTime ss)) (inject_Z now)
          then modify (with_serviceState (set_outage true None None))
          else ret tt) ;;
    var healthy := gets (fun s => isHealthy (serviceState s)) ;;
    var startOutage :=
      (if healthy
       then var r := Math_random ;; ret (Qltb r (outageChance config))
       else ret false) ;;
    if startOutage then
      let outageStart := now in
      var r := Math_random ;;
      let outageDuration :=
        (r * inject_Z (maxOutageDuration config - minOutageDuration config)
         + inject_Z (minOutageDuration config))%Q in
      call modify (with_serviceState
                     (set_outage false (Some outageStart)
                        (Some (inject_Z outageStart + outageDuration)%Q))) ;;
      ret false
    else gets (fun s => isHealthy (serviceState s)).

(** ** Normal-period scheduler (lines 106-124) *)
Definition isInNormalPeriod : M bool :=
  var now := Date_now ;;
  var ss := gets serviceState ;;
  call (if truthy_num (normalPeriodDuration ss)
           && Qltb (Qof (normalPeriodDuration ss)) (inject_Z (now - normalPeriodStart ss))
        then modify (with_serviceState (set_normalPeriod (normalPeriodStart ss) None))
        else ret tt) ;;
  var duration := gets (fun s => normalPeriodDuration (serviceState s)) ;;
  var startPeriod :=
    (if negb (truthy_num duration)
     then var r := Math_random ;; ret (Qltb r (normalPeriodChance config))
     else ret false) ;;
  call (if startPeriod then
          var r := Math_random ;;
          modify (with_serviceState
                    (set_normalPeriod now
                       (Some (r * inject_Z (maxNormalPeriod config - minNormalPeriod config)
                              + inject_Z (minNormalPeriod config))%Q)))
        else ret tt) ;;
  var duration' := gets (fun s => normalPeriodDuration (serviceState s)) ;;
  ret (truthy_num duration').

(** ** Circuit breaker (lines 127-195) *)
Definition isCircuitBreakerOpen : M bool :=
  var now := Date_now ;;
  call modify (with_errorWindow
                 (List.filter (fun timestamp => now - timestamp <? circuitBreakerWindow config))) ;;
  var state := gets circuitBreakerState ;;
  match state with
  | CLOSED =>
      var window := gets errorWindow ;;
      if Z.of_nat (length window) >=? circuitBreakerThreshold config then
        call modify (set_breaker OPEN) ;;
        call modify (set_openTime (Some now)) ;;
        ret true
      else ret false
  | OPEN =>
      var openTime := gets circuitBreakerOpenTime ;;
      if now - num_of openTime >=? circuitBreakerRecovery config then
        call modify (set_breaker HALF_OPEN) ;;
        call modify (set_halfOpenAttempts 0) ;;
        ret false
      else ret true
  | HALF_OPEN => ret false
  end.

Definition recordError : M unit :=
  var now := Date_now ;;
  call modify (with_errorWindow (fun w => w ++ [now])) ;;
  call modify (with_serviceState
                 (fun ss => set_counters (requestCount ss) (successCount ss)
                              (errorCount ss + 1) ss)) ;;
  var state := gets circuitBreakerState ;;
  match state with
  | HALF_OPEN =>
      call modify (set_breaker OPEN) ;;
      call modify (set_openTime (Some now)) ;;
      modify (set_halfOpenAttempts 0)
  | _ => ret tt
  end.

Definition recordSuccess : M unit :=
  call modify (with_serviceState
                 (fun ss => set_counters (requestCount ss) (successCount ss + 1)
                              (errorCount ss) ss)) ;;
  var state := gets circuitBreakerState ;;
  match state with
  | HALF_OPEN =>
      call modify (fun s => set_halfOpenAttempts (halfOpenAttempts s + 1) s) ;;
      var attempts := gets halfOpenAttempts ;;
      if attempts >=? circuitBreakerHalfOpenRequests config then
        call modify (set_breaker CLOSED) ;;
        call modify (set_halfOpenAttempts 0) ;;
        var now := Date_now ;;
        let cutoff := (inject_Z now - inject_Z (circuitBreakerWindow config) / 2)%Q in
        modify (with_errorWindow
                  (List.filter (fun timestamp => Qltb cutoff (inject_Z timestamp))))
      else ret tt
  | _ => ret tt
  end.

(** ** Error and delay injection (lines 198-225) *)
Definition simulateError : M (option ErrorScenario) :=
  var rand := Math_random ;;
  if Qltb rand (serverErrorChance config) then
    ret (Some {| es_status := 500; es_error := "Internal Server Error";
                 es_type := server_error |})
  else if Qltb rand (serverErrorChance config + clientErrorChance config)%Q then
    ret (Some {| es_status := 400; es_error := "Bad Request";
                 es_type := client_error |})
  else if Qltb rand (serverErrorChance config + clientErrorChance config
                     + timeoutChance config)%Q then
    ret (Some {| es_status := 408; es_error := "Request Timeout";
                 es_type := timeout |})
  else ret None.

(** The suspension itself only lets the clock advance. *)
Definition addDelay : M Q :=
  var r := Math_random ;;
  if Qltb r (slowResponseChance config) then
    var r' := Math_random ;;
    ret (r' * inject_Z (maxSlowDelay config - minSlowDelay config)
         + inject_Z (minSlowDelay config))%Q
  else ret 0%Q.

(** ** The handler (lines 227-574) *)

(** [generateRequestId] (lines 68-70): the token is made of one clock
    reading and one draw. *)
Definition generateRequestId : M (Z * Q) :=
  var t := Date_now ;;
  var r := Math_random ;;
  ret (t, r).

(** [a || b] on optional strings. *)
Definition or_str (a : option string) (b : string) : string :=
  if truthy_str a then default ""%string a else b.

(** [responseTime = Date.now() - requestStart], then the running mean
    [averageResponseTime] (lines 376-377, 437-438, 470-471, 539-540). *)
Definition measure (requestStart : Z) : M Z :=
  var t := Date_now ;;
  ret (t - requestStart).

Definition updateAverage (responseTime : Z) : M unit :=
  modify (with_serviceState (fun ss =>
    set_averageResponseTime
      ((averageResponseTime ss * inject_Z (requestCount ss - 1) + inject_Z responseTime)
       / inject_Z (requestCount ss))%Q ss)).

(** Success-path dispatch (lines 374-553).  [None] is a thrown exception. *)
Definition helloHttp_dispatch (req : Request) (requestStart : Z) (pathname : string)
    (inNormalPeriod : bool) : M (option Response) :=
  if String.eqb pathname "/" || String.eqb pathname "/health" then
    var responseTime := measure requestStart ;;
    call updateAverage responseTime ;;
    var s := gets (fun s => s) ;;
    ret (Some {| res_status := 200;
                 message := "Realistic mock service is running";
                 error_type := None;
                 circuit_breaker_state := Some (circuitBreakerState s);
                 in_normal_period := Some inNormalPeriod;
                 service_metrics := Some {|
                   total_requests := requestCount (serviceState s);
                   successful_requests := successCount (serviceState s);
                   failed_requests := errorCount (serviceState s);
                   circuit_breaker_errors := length (errorWindow s);
                   half_open_attempts := halfOpenAttempts s |} |})
  else if String.eqb pathname "/reset-circuit-breaker" && String.eqb (method req) "POST" then
    var responseTime := measure requestStart ;;
    call modify (set_breaker CLOSED) ;;
    call modify (set_openTime None) ;;
    call modify (set_halfOpenAttempts 0) ;;
    call modify (with_errorWindow (fun _ => [])) ;;
    var state := gets circuitBreakerState ;;
    ret (Some {| res_status := 200;
                 message := "Circuit breaker has been reset";
                 error_type := None;
                 circuit_breaker_state := Some state;
                 in_normal_period := None;
                 service_metrics := None |})
  else if String.eqb (method req) "GET" then
    var responseTime := measure requestStart ;;
    call updateAverage responseTime ;;
    match query req with
    | None => ret None
    | Some name =>
        if truthy_str name then
          ret (Some (success_response ("Hello " ++ default "" name ++ "!") inNormalPeriod))
        else
          ret (Some (success_response "Hello World!" inNormalPeriod))
    end
  else if String.eqb (method req) "POST" then
    var responseTime := measure requestStart ;;
    call updateAverage responseTime ;;
    if String.eqb pathname "/hello" && negb (truthy_str (body_name req)) then
      call recordError ;;
      ret (Some (error_response 400 "Missing required field: name" validation_error))
    else if truthy_str (body_name req) then
      ret (Some (success_response ("Hello " ++ default "" (body_name req) ++ "!")
                   inNormalPeriod))
    else
      ret (Some (success_response "Request processed successfully" inNormalPeriod))
  else
    var responseTime := measure requestStart ;;
    call updateAverage responseTime ;;
    ret (Some (success_response (method req ++ " request processed") inNormalPeriod)).

(** Error injection and the plain drop (lines 331-368), run when no normal
    period is active.  [Some] is the response of a failed request. *)
Definition helloHttp_inject (requestStart : Z) : M (option Response) :=
  var errorScenario := simulateError ;;
  match errorScenario with
  | Some e =>
      call recordError ;;
      var responseTime := measure requestStart ;;
      ret (Some (error_response (es_status e) (es_error e) (es_type e)))
  | None =>
      let successRate := baseSuccessRate config in
      var r := Math_random ;;
      if Qltb successRate r then
        call recordError ;;
        var responseTime := measure requestStart ;;
        ret (Some (error_response 504 "Simulated network failure (gateway timeout)"
                     network_failure))
      else ret None
  end.

(** From the normal-period flag on (lines 329-553). *)
Definition helloHttp_admitted (req : Request) (requestStart : Z) (pathname : string)
    (inNormalPeriod : bool) : M (option Response) :=
  var failed := (if negb inNormalPeriod then helloHttp_inject requestStart else ret None) ;;
  match failed with
  | Some response => ret (Some response)
  | None =>
      call recordSuccess ;;
      helloHttp_dispatch req requestStart pathname inNormalPeriod
  end.

(** The body of the [try] block (lines 284-553). *)
Definition helloHttp_try (req : Request) (requestStart : Z) : M (option Response) :=
  let pathname := or_str (url req) (or_str (path req) "/") in
  var available := checkServiceAvailability ;;
  if negb available then
    call recordError ;;
    var responseTime := measure requestStart ;;
    var retryFrom := Date_now ;;
    ret (Some (error_response 503 "Service temporarily unavailable" service_unavailable))
  else
    var open := isCircuitBreakerOpen ;;
    if open then
      call recordError ;;
      var responseTime := measure requestStart ;;
      var state := gets circuitBreakerState ;;
      call (match state with
            | OPEN => var remainingFrom := Date_now ;; ret tt
            | _ => ret tt
            end) ;;
      ret (Some {| res_status := 503;
                   message := "Circuit breaker open - too many recent failures";
                   error_type := Some circuit_breaker_open;
                   circuit_breaker_state := Some state;
                   in_normal_period := None;
                   service_metrics := None |})
    else
      var artificialDelay := addDelay ;;
      var inNormalPeriod := isInNormalPeriod ;;
      helloHttp_admitted req requestStart pathname inNormalPeriod.

(** The handler run without interruption (lines 228-573): a request
    during whose delay no other request is handled.  The two parts the
    event loop runs to completion are [helloHttp_enter] and
    [helloHttp_resume] below. *)
Definition helloHttp (req : Request) : M Response :=
  var requestStart := Date_now ;;
  var requestId := generateRequestId ;;
  call modify (with_serviceState
                 (fun ss => set_counters (requestCount ss + 1) (successCount ss)
                              (errorCount ss) ss)) ;;
  if String.eqb (method req) "OPTIONS" then
    ret {| res_status := 204; message := ""; error_type := None;
           circuit_breaker_state := None; in_normal_period := None;
           service_metrics := None |}
  else
    let ip := or_str (x_forwarded_for req) (or_str (remoteAddress req) "unknown") in
    var limited := checkRateLimit ip ;;
    if limited then
      call recordError ;;
      var responseTime := measure requestStart ;;
      ret (error_response 429 "Too many requests" rate_limit)
    else
      var outcome := helloHttp_try req requestStart ;;
      match outcome with
      | Some response => ret response
      | None =>
          call recordError ;;
          var responseTime := measure requestStart ;;
          ret (error_response 500 "Internal server error" unexpected_error)
      end.

(** A run of the service in which no two requests overlap: each request
    is answered before the next one arrives. *)
Fixpoint serve (reqs : list Request) : M (list Response) :=
  match reqs with
  | [] => ret []
  | req :: rest =>
      var response := helloHttp req ;;
      var responses := serve rest ;;
      ret (response :: responses)
  end.

(** ** The handler as the event loop runs it

    The handler is an [async] function with one suspension point,
    [await addDelay()] (line 324; the timer is set at line 221).  The code
    before the await and the code after it each run to completion, and other
    requests may arrive or resume in between: [helloHttp] above is the run
    of a request during which no other request is handled. *)

(** The admission gates and the delay (lines 260-324).  [inl] is the
    response of a request rejected by a gate; [inr] is the [requestStart]
    that a request keeps while it is suspended at the await. *)
Definition helloHttp_gates (req : Request) (requestStart : Z) : M (Response + Z) :=
  let ip := or_str (x_forwarded_for req) (or_str (remoteAddress req) "unknown") in
  var limited := checkRateLimit ip ;;
  if limited then
    call recordError ;;
    var responseTime := measure requestStart ;;
    ret (inl (error_response 429 "Too many requests" rate_limit))
  else
    var available := checkServiceAvailability ;;
    if negb available then
      call recordError ;;
      var responseTime := measure requestStart ;;
      var retryFrom := Date_now ;;
      ret (inl (error_response 503 "Service temporarily unavailable" service_unavailable))
    else
      var open := isCircuitBreakerOpen ;;
      if open then
        call recordError ;;
        var responseTime := measure requestStart ;;
        var state := gets circuitBreakerState ;;
        call (match state with
              | OPEN => var remainingFrom := Date_now ;; ret tt
              | _ => ret tt
              end) ;;
        ret (inl {| res_status := 503;
                    message := "Circuit breaker open - too many recent failures";
                    error_type := Some circuit_breaker_open;
                    circuit_breaker_state := Some state;
                    in_normal_period := None;
                    service_metrics := None |})
      else
        var artificialDelay := addDelay ;;
        ret (inr requestStart).

(** From the first statement of the handler to the await (lines 228-324). *)
Definition helloHttp_enter (req : Request) : M (Response + Z) :=
  var requestStart := Date_now ;;
  var requestId := generateRequestId ;;
  call modify (with_serviceState
                 (fun ss => set_counters (requestCount ss + 1) (successCount ss)
                              (errorCount ss) ss)) ;;
  if String.eqb (method req) "OPTIONS" then
    ret (inl {| res_status := 204; message := ""; error_type := None;
                circuit_breaker_state := None; in_normal_period := None;
                service_metrics := None |})
  else helloHttp_gates req requestStart.

(** From the await to the response (lines 327-573), the [catch] block
    included. *)
Definition helloHttp_resume (req : Request) (requestStart : Z) : M Response :=
  let pathname := or_str (url req) (or_str (path req) "/") in
  var inNormalPeriod := isInNormalPeriod ;;
  var outcome := helloHttp_admitted req requestStart pathname inNormalPeriod ;;
  match outcome with
  | Some response => ret response
  | None =>
      call recordError ;;
      var responseTime := measure requestStart ;;
      ret (error_response 500 "Internal server error" unexpected_error)
  end.

(** What the event loop does next: a request arrives, or the [i]-th of the
    suspended requests resumes. *)
Inductive Event : Type :=
  | arrives (req : Request)
  | resumes (i : nat).

(** A run of the service under a schedule.  [waiting] are the suspended
    requests, each with its [requestStart]; the result is the responses
    sent, in order, and the requests still suspended.  An event that resumes
    a request that is not there does nothing. *)
Fixpoint run (events : list Event) (waiting : list (Request * Z))
    : M (list Response * list (Request * Z)) :=
  match events with
  | [] => ret ([], waiting)
  | arrives req :: rest =>
      var outcome := helloHttp_enter req ;;
      match outcome with
      | inl response =>
          var others := run rest waiting ;;
          ret (response :: fst others, snd others)
      | inr requestStart => run rest (waiting ++ [(req, requestStart)])
      end
  | resumes i :: rest =>
      match waiting !! i with
      | Some (req, requestStart) =>
          var response := helloHttp_resume req requestStart ;;
          var others := run rest (delete i waiting) ;;
          ret (response :: fst others, snd others)
      | None => run rest waiting
      end
  end.

End Service.

(** The state the script starts in (lines 4-14, 41, 62-65); [normalPeriodStart]
    is the clock reading taken when the module is loaded. *)
Definition initial (w : World) : State :=
  {| world := {| clock := clock w; ticks := S (ticks w);
                 random := random w; draws := draws w |};
     serviceState := {| isHealthy := true; lastOutageStart := None;
                        outageEndTime := None;
                        normalPeriodStart := clock w (ticks w);
                        normalPeriodDuration := None;
                        requestCount := 0; successCount := 0; errorCount := 0;
                        averageResponseTime := 0 |};
     rateLimitMap := ∅;
     errorWindow := [];
     circuitBreakerState := CLOSED;
     circuitBreakerOpenTime := None;
     halfOpenAttempts := 0 |}.

(** * Notions used in the statements *)

(** Case analysis on the tests a computation branches on. *)
Ltac split_ifs :=
  repeat (match goal with
          | |- context [if ?b then _ else _] => destruct b eqn:?
          end; simpl).

(** The state after one [Date.now()]. *)
Definition ticked (s : State) : State := snd (Date_now s).

Section Notions.

Variable config : Config.

(** What one call of [checkRateLimit] does to the entry of its key: the
    result and the entry written back. *)
Definition entry_step (now : Z) (o : option RateLimitEntry) : bool * RateLimitEntry :=
  match o with
  | Some e =>
      if now - start e >? rateLimitWindowMs config
      then (false, {| count := 1; start := now |})
      else (count e + 1 >? rateLimitMax config, {| count := count e + 1; start := start e |})
  | None => (false, {| count := 1; start := now |})
  end.

(** Successive calls of [checkRateLimit], one per key of the list. *)
Fixpoint checkRateLimit_each (ips : list string) : M (list bool) :=
  match ips with
  | [] => ret []
  | ip :: rest =>
      var limited := checkRateLimit config ip ;;
      var others := checkRateLimit_each rest ;;
      ret (limited :: others)
  end.

(** How many calls of the list are for [ip]. *)
Definition hits (ip : string) (ips : list string) : Z :=
  Z.of_nat (count_occ String.string_dec ips ip).

(** [n] calls of the same computation. *)
Fixpoint times (n : nat) (m : M unit) : M unit :=
  match n with
  | O => ret tt
  | S n' => call m ;; times n' m
  end.

(** The wording of the specification for the pruning done when the breaker
    closes: the newest half of the error window (the entries younger than
    half of [circuitBreakerWindow] at time [now]) is discarded and the rest
    is retained. *)
Definition discards_newest_half (now : Z) (before after : list Z) : Prop :=
  after = List.filter (fun timestamp => 2 * (now - timestamp) >=? circuitBreakerWindow config)
            before.

(** What the code keeps instead: the entries strictly younger than half of
    [circuitBreakerWindow]. *)
Definition younger_half (now : Z) (window : list Z) : list Z :=
  List.filter (fun timestamp => 2 * (now - timestamp) <? circuitBreakerWindow config) window.

(** The entries of the error window still inside [circuitBreakerWindow]. *)
Definition pruned (now : Z) (window : list Z) : list Z :=
  List.filter (fun timestamp => now - timestamp <? circuitBreakerWindow config) window.

(** The duration drawn for a new outage. *)
Definition drawn_outage (r : Q) : Q :=
  (r * inject_Z (maxOutageDuration config - minOutageDuration config)
   + inject_Z (minOutageDuration config))%Q.

End Notions.

(** The draws made by a call of [checkServiceAvailability] that finds the
    service healthy: the first decides whether an outage starts, the second
    gives its duration. *)
Definition second_draw_of (s : State) : Q := random (world s) (S (draws (world s))).

(** The part of the state the counters and the breaker live in: request,
    success and error counts, error window, breaker state, opening time and
    half-open counter. *)
Definition Core : Type := Z * Z * Z * list Z * BreakerState * option Z * Z.

Definition core (s : State) : Core :=
  (requestCount (serviceState s), successCount (serviceState s),
   errorCount (serviceState s), errorWindow s, circuitBreakerState s,
   circuitBreakerOpenTime s, halfOpenAttempts s).

(** [recordError], [recordSuccess] and [isCircuitBreakerOpen] seen on the
    core. *)
Definition core_recordError (now : Z) (c : Core) : Core :=
  let '(requests, successes, errors, window, state, openTime, attempts) := c in
  match state with
  | HALF_OPEN => (requests, successes, errors + 1, window ++ [now], OPEN, Some now, 0)
  | _ => (requests, successes, errors + 1, window ++ [now], state, openTime, attempts)
  end.

Definition core_recordSuccess (config : Config) (now : Z) (c : Core) : Core :=
  let '(requests, successes, errors, window, state, openTime, attempts) := c in
  match state with
  | HALF_OPEN =>
      if attempts + 1 >=? circuitBreakerHalfOpenRequests config
      then (requests, successes + 1, errors, younger_half config now window,
            CLOSED, openTime, 0)
      else (requests, successes + 1, errors, window, state, openTime, attempts + 1)
  | _ => (requests, successes + 1, errors, window, state, openTime, attempts)
  end.

Definition core_isCircuitBreakerOpen (config : Config) (now : Z) (c : Core) : bool * Core :=
  let '(requests, successes, errors, window, state, openTime, attempts) := c in
  let window' := pruned config now window in
  match state with
  | CLOSED =>
      if Z.of_nat (length window') >=? circuitBreakerThreshold config
      then (true, (requests, successes, errors, window', OPEN, Some now, attempts))
      else (false, (requests, successes, errors, window', state, openTime, attempts))
  | OPEN =>
      if now - num_of openTime >=? circuitBreakerRecovery config
      then (false, (requests, successes, errors, window', HALF_OPEN, openTime, 0))
      else (true, (requests, successes, errors, window', state, openTime, attempts))
  | HALF_OPEN => (false, (requests, successes, errors, window', state, openTime, attempts))
  end.

(** [m] acts on the core as [F], whatever else it does to the state. *)
Class Effect {A} (m : M A) (F : State -> Core -> Core) : Prop :=
  effect : forall s, core (snd (m s)) = F s (core s).

Definition core_open_has_time (c : Core) : Prop :=
  let '(_, _, _, _, state, openTime, _) := c in state = OPEN -> openTime <> None.

(** The breaker never reports OPEN without an opening time. *)
Definition open_has_time (s : State) : Prop :=
  circuitBreakerState s = OPEN -> circuitBreakerOpenTime s <> None.

(** The status code the handler sends with each kind of failure. *)
Definition expected_status (k : ErrorType) : Z :=
  match k with
  | rate_limit => 429
  | service_unavailable => 503
  | circuit_breaker_open => 503
  | server_error => 500
  | client_error => 400
  | timeout => 408
  | network_failure => 504
  | validation_error => 400
  | unexpected_error => 500
  end.

Definition status_as_expected (req : Request) (response : Response) : Prop :=
  match error_type response with
  | Some k => res_status response = expected_status k
  | None =>
      res_status response = (if String.eqb (method req) "OPTIONS" then 204 else 200)
  end.

(** The full account of one request on the counters: which of them grow,
    by the method of the request and the kind of its response. *)
Definition accounted (req : Request) (response : Response) (c c' : Core) : Prop :=
  let '(requests, successes, errors, _, _, _, _) := c in
  let '(requests', successes', errors', _, _, _, _) := c' in
  requests' = requests + 1 /\
  match error_type response with
  | None =>
      errors' = errors /\
      successes' = (if String.eqb (method req) "OPTIONS" then successes else successes + 1)
  | Some validation_error | Some unexpected_error =>
      errors' = errors + 1 /\ successes' = successes + 1
  | Some _ => errors' = errors + 1 /\ successes' = successes
  end.

(** The path the handler routes on. *)
Definition pathname_of (req : Request) : string :=
  or_str (url req) (or_str (path req) "/").

(** [m] leaves the map of the rate limiter as it is. *)
Class KeepsLimiter {A} (m : M A) : Prop :=
  keeps_limiter : forall s, rateLimitMap (snd (m s)) = rateLimitMap s.

(** The key a request is counted under. *)
Definition client_key (req : Request) : string :=
  or_str (x_forwarded_for req) (or_str (remoteAddress req) "unknown").

Definition try_keeps_limiter (o : option Response) (m m' : gmap string RateLimitEntry) : Prop :=
  m' = m /\
  match o with
  | Some response => error_type response <> Some rate_limit
  | None => True
  end.

(** [m] reads the clock without replacing it. *)
Class KeepsClock {A} (m : M A) : Prop :=
  keeps_clock : forall s, clock (world (snd (m s))) = clock (world s).

(** A breaker that lets requests through: HALF_OPEN, or CLOSED with fewer
    entries in its window than the threshold. *)
Definition breaker_passing (config : Config) (c : Core) : Prop :=
  let '(_, _, _, window, state, _, _) := c in
  state = HALF_OPEN \/
  (state = CLOSED /\ Z.of_nat (length window) < circuitBreakerThreshold config).


Definition never_breaker_open (response : Response) : Prop :=
  error_type response <> Some circuit_breaker_open.


(** The outage window and the health flag agree: a healthy service has no
    end time, an unhealthy one has an end time that is set. *)
Definition outage_consistent (s : State) : Prop :=
  (isHealthy (serviceState s) = true -> outageEndTime (serviceState s) = None) /\
  (isHealthy (serviceState s) = false ->
   truthy_num (outageEndTime (serviceState s)) = true).

(** The duration drawn for a new normal period. *)
Definition drawn_period (config : Config) (r : Q) : Q :=
  (r * inject_Z (maxNormalPeriod config - minNormalPeriod config)
   + inject_Z (minNormalPeriod config))%Q.

(** The sum of the three error chances. *)
Definition errorChance (config : Config) : Q :=
  (serverErrorChance config + clientErrorChance config + timeoutChance config)%Q.

(** ** The two parts of the handler *)

(** The state in which a request reaches the gates: two readings of the
    clock and one draw made (lines 228-229), the request counted (line
    230). *)
Definition arrived (s : State) : State :=
  snd ((var requestStart := Date_now ;;
        var requestId := generateRequestId ;;
        modify (with_serviceState
                  (fun ss => set_counters (requestCount ss + 1) (successCount ss)
                               (errorCount ss) ss))) s).

Definition core_count (c : Core) : Core :=
  let '(requests, successes, errors, window, state, openTime, attempts) := c in
  (requests + 1, successes, errors, window, state, openTime, attempts).

(** The request for the reset endpoint, as the dispatch tests it. *)
Definition is_reset (req : Request) : bool :=
  String.eqb (pathname_of req) "/reset-circuit-breaker" && String.eqb (method req) "POST".



(** The error window a request leaves at the await or with a response sent
    before it: [checked] is what the breaker check keeps of [window]. *)
Definition window_entered (outcome : Response + Z) (window checked window' : list Z) : Prop :=
  match outcome with
  | inl response =>
      match error_type response with
      | Some circuit_breaker_open => exists t, window' = checked ++ [t]
      | Some _ => exists t, window' = window ++ [t]
      | None => window' = window
      end
  | inr _ => window' = checked
  end.

(** The error window a resumed request leaves: [recorded] is what
    [recordSuccess] leaves of [window]. *)
Definition window_resumed (req : Request) (response : Response)
    (window recorded window' : list Z) : Prop :=
  match error_type response with
  | Some validation_error | Some unexpected_error => exists t, window' = recorded ++ [t]
  | Some _ => exists t, window' = window ++ [t]
  | None => window' = (if is_reset req then [] else recorded)
  end.

(** The counters over the first part of a request. *)
Definition counted_entered (req : Request) (outcome : Response + Z) (c c' : Core) : Prop :=
  let '(requests, successes, errors, _, _, _, _) := c in
  let '(requests', successes', errors', _, _, _, _) := c' in
  requests' = requests + 1 /\
  successes' = successes /\
  match outcome with
  | inl response =>
      match error_type response with
      | Some k =>
          method req <> "OPTIONS"%string /\
          In k [rate_limit; service_unavailable; circuit_breaker_open] /\
          errors' = errors + 1
      | None => method req = "OPTIONS"%string /\ errors' = errors
      end
  | inr _ => method req <> "OPTIONS"%string /\ errors' = errors
  end.

(** The counters over the second part. *)
Definition counted_resumed (response : Response) (c c' : Core) : Prop :=
  let '(requests, successes, errors, _, _, _, _) := c in
  let '(requests', successes', errors', _, _, _, _) := c' in
  requests' = requests /\
  match error_type response with
  | None => successes' = successes + 1 /\ errors' = errors
  | Some validation_error | Some unexpected_error =>
      successes' = successes + 1 /\ errors' = errors + 1
  | Some _ => successes' = successes /\ errors' = errors + 1
  end.

(** Counting in a schedule and in the responses of a run. *)
Definition how_many {A} (f : A -> bool) (l : list A) : Z :=
  Z.of_nat (length (List.filter f l)).

Definition is_arrival (e : Event) : bool :=
  match e with
  | arrives _ => true
  | resumes _ => false
  end.

Definition is_preflight (e : Event) : bool :=
  match e with
  | arrives req => String.eqb (method req) "OPTIONS"
  | resumes _ => false
  end.

(** The responses recorded both as a success and as an error. *)
Definition counted_twice (response : Response) : bool :=
  match error_type response with
  | Some validation_error | Some unexpected_error => true
  | _ => false
  end.

(** The requests counted and not yet recorded as success or error. *)
Definition balance (s : State) : Z :=
  requestCount (serviceState s) - successCount (serviceState s) - errorCount (serviceState s).

(** No response sent before the await carries metrics. *)
Definition no_metrics (outcome : Response + Z) : Prop :=
  match outcome with
  | inl response => service_metrics response = None
  | inr _ => True
  end.

(** The metrics of a health payload against the counters at the moment the
    request resumed and those it leaves. *)
Definition metrics_snapshot (m : Metrics) (c c' : Core) : Prop :=
  let '(requests, successes, errors, _, _, _, _) := c in
  let '(requests', successes', errors', window', _, _, attempts') := c' in
  total_requests m = requests /\
  successful_requests m = successes + 1 /\
  failed_requests m = errors /\
  total_requests m = requests' /\
  successful_requests m = successes' /\
  failed_requests m = errors' /\
  circuit_breaker_errors m = length window' /\
  half_open_attempts m = attempts'.

(** Which responses of a resumed request carry metrics, and what the
    metrics are. *)
Definition health_reported (req : Request) (response : Response) (c c' : Core) : Prop :=
  match service_metrics response with
  | Some m =>
      error_type response = None /\
      (pathname_of req = "/"%string \/ pathname_of req = "/health"%string) /\
      metrics_snapshot m c c'
  | None =>
      error_type response <> None \/
      (pathname_of req <> "/"%string /\ pathname_of req <> "/health"%string)
  end.

(** The breaker a request leaves at the await or with a response sent
    before it. *)
Definition breaker_entered (outcome : Response + Z) (c' : Core) : Prop :=
  let '(_, _, _, _, state', _, _) := c' in
  match outcome with
  | inl response =>
      (forall k, error_type response = Some k -> state' <> HALF_OPEN) /\
      (error_type response = Some circuit_breaker_open ->
       state' = OPEN /\ circuit_breaker_state response = Some OPEN)
  | inr _ => state' <> OPEN
  end.

(** The breaker a resumed request leaves. *)
Definition breaker_resumed (response : Response) (c c' : Core) : Prop :=
  let '(_, _, _, _, state, _, _) := c in
  let '(_, _, _, _, state', _, _) := c' in
  (forall k, error_type response = Some k -> state' <> HALF_OPEN) /\
  (error_type response = None -> state' = OPEN -> state = OPEN) /\
  error_type response <> Some circuit_breaker_open.

(** ** Concrete inputs *)

(** A world whose clock stands still at [t] and whose draws are all [r]. *)
Definition steady_world (t : Z) (r : Q) : World :=
  {| clock := fun _ => t; ticks := 0; random := fun _ => r; draws := 0 |}.

Definition example_request (m : string) (u : string) (name : option string) : Request :=
  {| method := m; url := Some u; path := Some u;
     x_forwarded_for := Some "203.0.113.7"%string; remoteAddress := None;
     body_name := name; query := Some None |}.

Definition reset_request : Request := example_request "POST" "/reset-circuit-breaker" None.
Definition hello_without_name : Request := example_request "POST" "/hello" None.
Definition preflight_request : Request := example_request "OPTIONS" "/" None.
Definition get_request : Request := example_request "GET" "/data" None.

(** The fresh service at time 1000, every draw being 1/2: no outage, no
    delay, no normal period, no injected error, no drop. *)
Definition quiet_state : State := initial (steady_world 1000 (1 # 2)).

(** The breaker opened at 1000 after two errors; it is now 2000. *)
Definition open_state : State :=
  set_breaker OPEN
    (set_openTime (Some 1000)
       (with_errorWindow (fun _ => [900; 950]) (initial (steady_world 2000 (1 # 2))))).

(** The breaker opened at 1000 and is due for recovery: it is now 30000. *)
Definition recovering_state : State :=
  set_breaker OPEN
    (set_openTime (Some 1000)
       (with_errorWindow (fun _ => [900; 950]) (initial (steady_world 30000 (1 # 2))))).

(** The breaker has just become HALF_OPEN, with an old and a recent error
    in its window; it is now 60000. *)
Definition half_open_state : State :=
  set_breaker HALF_OPEN
    (set_openTime (Some 1000)
       (with_errorWindow (fun _ => [1000; 50000]) (initial (steady_world 60000 (1 # 2))))).

(** CLOSED with fifteen recent errors. *)
Definition failing_state : State :=
  with_errorWindow (fun _ => repeat 1900 15) (initial (steady_world 2000 (1 # 2))).

(** A normal period of ten minutes started at 1000; it is 2000. *)
Definition normal_period_state : State :=
  with_serviceState (set_normalPeriod 1000 (Some (600000 # 1)))
    (initial (steady_world 2000 (1 # 2))).

(** A service whose every draw is 0: each draw made while healthy starts an
    outage of the minimal duration.  The clock reads 1000 when the script is
    loaded and at the first call, 5000 at the second and 20000 afterwards. *)
Definition unlucky_state : State :=
  initial {| clock := fun n => match n with
                               | 0%nat | 1%nat => 1000
                               | 2%nat => 5000
                               | _ => 20000
                               end;
             ticks := 0; random := fun _ => 0%Q; draws := 0 |}.

(** A client that has used up its window: 50 requests counted since 1000.
    The clock stays at 1000 for the next [n] readings and then reads 20000. *)
Definition client : string := "203.0.113.7".

Definition bursty_world (n : nat) : World :=
  {| clock := fun k => if (k <=? n)%nat then 1000 else 20000;
     ticks := 0; random := fun _ => (1 # 2)%Q; draws := 0 |}.

Definition exhausted_state : State :=
  with_rateLimitMap (insert client {| count := 50; start := 1000 |})
    (initial (bursty_world 4)).


(** Two clients of the quiet service. *)
Definition other_client : string := "198.51.100.9".

(** The fresh service at time 1000 whose first request is delayed: the
    draw that decides on its delay (the third draw) is 1/10, every other
    draw is 1/2. *)
Definition delaying_world : World :=
  {| clock := fun _ => 1000; ticks := 0;
     random := fun k => if (k =? 2)%nat then 1 # 10 else 1 # 2; draws := 0 |}.

(** Two requests arrive, and the second is answered while the first is
    still suspended at its delay. *)
Definition overlapping : list Event :=
  [arrives get_request; arrives get_request; resumes 1].

(** * Properties *)

(** Unfolding of the monadic plumbing. *)
Ltac run_monad :=
  unfold bind, ret, gets, modify, Date_now, Math_random, measure, updateAverage; simpl.

(** ** Rate limiter *)

Section RateLimiter.

Variable config : Config.

Lemma checkRateLimit_run ip st :
  checkRateLimit config ip st =
    (fst (entry_step config (now_of st) (rateLimitMap st !! ip)),
     with_rateLimitMap (insert ip (snd (entry_step config (now_of st) (rateLimitMap st !! ip))))
       (ticked st)).
Proof.
  unfold checkRateLimit, entry_step, ticked, now_of. run_monad.
  destruct (rateLimitMap st !! ip) as [e|]; simpl; [|reflexivity].
  destruct (_ >? rateLimitWindowMs config); simpl; [reflexivity|].
  destruct (_ >? rateLimitMax config); reflexivity.
Qed.

Lemma hits_cons_eq ip ips : hits ip (ip :: ips) = 1 + hits ip ips.
Proof. unfold hits. rewrite count_occ_cons_eq by reflexivity. lia. Qed.

Lemma hits_cons_ne ip k ips : k <> ip -> hits ip (k :: ips) = hits ip ips.
Proof. intros H. unfold hits. rewrite count_occ_cons_neq by exact H. reflexivity. Qed.

Lemma hits_nonneg ip ips : 0 <= hits ip ips.
Proof. unfold hits. lia. Qed.

(** Inside a window: the entry of [ip] only counts the calls for [ip], and
    a call for [ip] is over the limit exactly when the count it reaches
    exceeds [rateLimitMax]. *)
Lemma checkRateLimit_each_in_window ip ips : forall st c t0,
  rateLimitMap st !! ip = Some {| count := c; start := t0 |} ->
  (forall j, ips !! j = Some ip ->
     clock (world st) (ticks (world st) + j)%nat - t0 <= rateLimitWindowMs config) ->
  (forall j, ips !! j = Some ip ->
     fst (checkRateLimit_each config ips st) !! j
     = Some (c + hits ip (take (S j) ips) >? rateLimitMax config)) /\
  rateLimitMap (snd (checkRateLimit_each config ips st)) !! ip
    = Some {| count := c + hits ip ips; start := t0 |} /\
  clock (world (snd (checkRateLimit_each config ips st))) = clock (world st) /\
  random (world (snd (checkRateLimit_each config ips st))) = random (world st) /\
  ticks (world (snd (checkRateLimit_each config ips st))) = (ticks (world st) + length ips)%nat.
Proof.
  induction ips as [|k rest IH]; intros st c t0 Hentry Hwin.
  - simpl. repeat split.
    + intros j Hj. rewrite lookup_nil in Hj. discriminate.
    + rewrite Hentry. unfold hits. simpl. do 2 f_equal. lia.
    + lia.
  - cbn [checkRateLimit_each]. unfold bind, ret. rewrite checkRateLimit_run.
    set (st1 := with_rateLimitMap _ (ticked st)).
    destruct (checkRateLimit_each config rest st1) as [bs st2] eqn:Hrest.
    assert (Hw1 : clock (world st1) = clock (world st) /\
                  random (world st1) = random (world st) /\
                  ticks (world st1) = S (ticks (world st))) by (repeat split).
    destruct Hw1 as (Hc1 & Hr1 & Ht1).
    destruct (decide (k = ip)) as [->|Hne].
    + assert (Hnow : now_of st - t0 <= rateLimitWindowMs config).
      { specialize (Hwin 0%nat eq_refl). rewrite Nat.add_0_r in Hwin. exact Hwin. }
      assert (Hstep : entry_step config (now_of st) (rateLimitMap st !! ip)
                      = (c + 1 >? rateLimitMax config, {| count := c + 1; start := t0 |})).
      { rewrite Hentry. unfold entry_step. simpl.
        destruct (now_of st - t0 >? rateLimitWindowMs config) eqn:E; [lia|reflexivity]. }
      assert (Hentry1 : rateLimitMap st1 !! ip = Some {| count := c + 1; start := t0 |}).
      { subst st1. simpl. rewrite Hstep. simpl. apply lookup_insert_eq. }
      destruct (IH st1 (c + 1) t0 Hentry1) as (Hres & Hfin & Hc & Hr & Ht).
      { intros j Hj. rewrite Hc1, Ht1.
        replace (S (ticks (world st)) + j)%nat with (ticks (world st) + S j)%nat by lia.
        apply Hwin. exact Hj. }
      rewrite Hrest in Hres, Hfin, Hc, Hr, Ht. simpl in Hres, Hfin, Hc, Hr, Ht.
      simpl. repeat split.
      * intros [|j] Hj.
        -- simpl. rewrite Hstep. simpl. rewrite take_0.
           rewrite (hits_cons_eq ip []). change (hits ip []) with 0.
           rewrite Z.add_0_r. reflexivity.
        -- simpl in Hj. simpl. rewrite (Hres j Hj).
           rewrite (hits_cons_eq ip (take (S j) rest)). do 2 f_equal. lia.
      * rewrite Hfin, hits_cons_eq. do 2 f_equal. lia.
      * congruence.
      * congruence.
      * rewrite Ht. simpl. lia.
    + assert (Hentry1 : rateLimitMap st1 !! ip = Some {| count := c; start := t0 |}).
      { subst st1. simpl. rewrite lookup_insert_ne by exact Hne. exact Hentry. }
      destruct (IH st1 c t0 Hentry1) as (Hres & Hfin & Hc & Hr & Ht).
      { intros j Hj. rewrite Hc1, Ht1.
        replace (S (ticks (world st)) + j)%nat with (ticks (world st) + S j)%nat by lia.
        apply Hwin. exact Hj. }
      rewrite Hrest in Hres, Hfin, Hc, Hr, Ht. simpl in Hres, Hfin, Hc, Hr, Ht.
      simpl. repeat split.
      * intros [|j] Hj.
        -- simpl in Hj. congruence.
        -- simpl in Hj. simpl. rewrite (Hres j Hj).
           rewrite (hits_cons_ne ip k (take (S j) rest)) by exact Hne. reflexivity.
      * rewrite Hfin, hits_cons_ne by exact Hne. reflexivity.
      * congruence.
      * congruence.
      * rewrite Ht. simpl. lia.
Qed.

Lemma checkRateLimit_each_app l1 l2 st :
  checkRateLimit_each config (l1 ++ l2) st =
    (fst (checkRateLimit_each config l1 st)
       ++ fst (checkRateLimit_each config l2 (snd (checkRateLimit_each config l1 st))),
     snd (checkRateLimit_each config l2 (snd (checkRateLimit_each config l1 st)))).
Proof.
  revert st. induction l1 as [|k l1 IH]; intros st.
  - simpl. destruct (checkRateLimit_each config l2 st); reflexivity.
  - simpl. unfold bind, ret.
    destruct (checkRateLimit config k st) as [b s1]. rewrite IH.
    destruct (checkRateLimit_each config l1 s1) as [bs s2]. simpl.
    destruct (checkRateLimit_each config l2 s2); reflexivity.
Qed.

Lemma checkRateLimit_each_length l : forall st,
  length (fst (checkRateLimit_each config l st)) = length l.
Proof.
  induction l as [|k l IH]; intros st; [reflexivity|].
  simpl. unfold bind, ret.
  destruct (checkRateLimit config k st) as [b s1]. specialize (IH s1).
  destruct (checkRateLimit_each config l s1). simpl in *. congruence.
Qed.

(** A call on a key without entry, or whose window has elapsed, starts a
    window. *)
Lemma entry_step_fresh now o :
  (o = None \/ exists e, o = Some e /\ now - start e > rateLimitWindowMs config) ->
  entry_step config now o = (false, {| count := 1; start := now |}).
Proof.
  intros [->|(e & -> & He)]; [reflexivity|].
  unfold entry_step. destruct (now - start e >? rateLimitWindowMs config) eqn:E; [reflexivity|lia].
Qed.

(** C7: [checkRateLimit] is, on the entry of its key, the step the
    specification describes ([entry_step]: no entry or window elapsed gives
    count 1, start now, allowed; otherwise the count is incremented and the
    request denied exactly when the new count exceeds [rateLimitMax]).  So,
    with [rateLimitMax >= 1], in a run of calls that starts a window for [ip]
    and whose calls for [ip] all fall inside it, the k-th call for [ip] is
    denied exactly when k exceeds [rateLimitMax] (calls for other keys in
    between do not count), and the first call for [ip] after the window has
    elapsed is allowed and starts a new window. *)
Theorem checkRateLimit_window (ip : string) (st : State) (ips : list string) :
  1 <= rateLimitMax config ->
  (rateLimitMap st !! ip = None \/
   exists e, rateLimitMap st !! ip = Some e /\
             now_of st - start e > rateLimitWindowMs config) ->
  (forall j, (ip :: ips) !! j = Some ip ->
     clock (world st) (ticks (world st) + j)%nat - now_of st <= rateLimitWindowMs config) ->
  clock (world st) (ticks (world st) + S (length ips))%nat - now_of st
    > rateLimitWindowMs config ->
  let r := checkRateLimit_each config ((ip :: ips) ++ [ip]) st in
  (forall k s,
     checkRateLimit config k s =
       (fst (entry_step config (now_of s) (rateLimitMap s !! k)),
        with_rateLimitMap
          (insert k (snd (entry_step config (now_of s) (rateLimitMap s !! k))))
          (ticked s))) /\
  (forall j, (ip :: ips) !! j = Some ip ->
     fst r !! j = Some (hits ip (take (S j) (ip :: ips)) >? rateLimitMax config)) /\
  fst r !! S (length ips) = Some false /\
  rateLimitMap (snd r) !! ip
    = Some {| count := 1;
              start := clock (world st) (ticks (world st) + S (length ips))%nat |}.
Proof.
  intros Hmax Hfresh Hwin Hafter r.
  split; [intros k s; apply checkRateLimit_run|].
  subst r. rewrite checkRateLimit_each_app.
  (* the first call starts the window *)
  cbn [checkRateLimit_each]. unfold bind, ret. rewrite checkRateLimit_run.
  rewrite (entry_step_fresh _ _ Hfresh). cbn [fst snd].
  set (st1 := with_rateLimitMap _ (ticked st)).
  assert (Hentry1 : rateLimitMap st1 !! ip = Some {| count := 1; start := now_of st |})
    by (subst st1; simpl; apply lookup_insert_eq).
  destruct (checkRateLimit_each_in_window ip ips st1 1 (now_of st) Hentry1)
    as (Hres & Hfin & Hc & Hr & Ht).
  { intros j Hj. subst st1. simpl. specialize (Hwin (S j) Hj).
    replace (ticks (world st) + S j)%nat with (S (ticks (world st) + j)) in Hwin by lia.
    exact Hwin. }
  pose proof (checkRateLimit_each_length ips st1) as Hlen.
  destruct (checkRateLimit_each config ips st1) as [bs st2] eqn:Hrest.
  cbn [fst snd] in *.
  assert (Hnow2 : now_of st2 = clock (world st) (ticks (world st) + S (length ips))%nat).
  { unfold now_of. rewrite Hc, Ht. subst st1. simpl. f_equal. lia. }
  rewrite checkRateLimit_run. rewrite Hfin.
  rewrite (entry_step_fresh (now_of st2)
             (Some {| count := 1 + hits ip ips; start := now_of st |})).
  2:{ right. eexists. split; [reflexivity|]. simpl. rewrite Hnow2. exact Hafter. }
  cbn [fst snd]. repeat split.
  - intros [|j] Hj.
    + simpl. rewrite take_0, (hits_cons_eq ip []). change (hits ip []) with 0.
      destruct (1 + 0 >? rateLimitMax config) eqn:E; [lia|reflexivity].
    + simpl in Hj. change (((false :: bs) ++ [false]) !! S j) with ((bs ++ [false]) !! j).
      rewrite lookup_app_l by (rewrite Hlen; apply (lookup_lt_Some _ _ _ Hj)).
      rewrite (Hres j Hj). change (take (S (S j)) (ip :: ips)) with (ip :: take (S j) ips).
      rewrite hits_cons_eq. reflexivity.
  - change (((false :: bs) ++ [false]) !! S (length ips)) with ((bs ++ [false]) !! length ips).
    rewrite lookup_app_r by lia. rewrite Hlen, Nat.sub_diag. reflexivity.
  - simpl. rewrite lookup_insert_eq, Hnow2. reflexivity.
Qed.

(** C10: once a call for [ip] has been denied, every later call for [ip]
    made while the window of its entry has not elapsed is denied as well:
    the denied call and the later ones leave the window start where it was
    and only increase the count.  The first call for [ip] made after the
    window has elapsed is allowed and resets the entry to count 1. *)
Theorem checkRateLimit_denied_until_window_ends
    (ip : string) (st : State) (e : RateLimitEntry) (ips : list string) :
  let st1 := snd (checkRateLimit config ip st) in
  fst (checkRateLimit config ip st) = true ->
  rateLimitMap st1 !! ip = Some e ->
  (forall j, ips !! j = Some ip ->
     clock (world st1) (ticks (world st1) + j)%nat - start e <= rateLimitWindowMs config) ->
  clock (world st1) (ticks (world st1) + length ips)%nat - start e
    > rateLimitWindowMs config ->
  let r := checkRateLimit_each config ips st1 in
  let r' := checkRateLimit config ip (snd r) in
  rateLimitMap st !! ip = Some {| count := count e - 1; start := start e |} /\
  rateLimitMax config < count e /\
  (forall j, ips !! j = Some ip -> fst r !! j = Some true) /\
  rateLimitMap (snd r) !! ip
    = Some {| count := count e + hits ip ips; start := start e |} /\
  fst r' = false /\
  rateLimitMap (snd r') !! ip
    = Some {| count := 1;
              start := clock (world st1) (ticks (world st1) + length ips)%nat |}.
Proof.
  intros st1 Hdenied Hentry Hwin Hafter r r'.
  subst st1 r' r. rewrite checkRateLimit_run in *. cbn [fst snd] in *.
  set (st1 := with_rateLimitMap _ (ticked st)) in *.
  assert (Hpre : rateLimitMap st !! ip = Some {| count := count e - 1; start := start e |}
                 /\ rateLimitMax config < count e).
  { subst st1. simpl in Hentry. rewrite lookup_insert_eq in Hentry.
    unfold entry_step in *. destruct (rateLimitMap st !! ip) as [e0|]; [|discriminate].
    destruct (now_of st - start e0 >? rateLimitWindowMs config); [discriminate|].
    simpl in *. injection Hentry as <-. simpl. split; [|lia].
    destruct e0 as [c0 t0]. simpl. do 2 f_equal. lia. }
  destruct Hpre as [Hpre Hover]. split; [exact Hpre|]. split; [exact Hover|].
  assert (Hentry' : rateLimitMap st1 !! ip = Some {| count := count e; start := start e |})
    by (rewrite Hentry; destruct e; reflexivity).
  destruct (checkRateLimit_each_in_window ip ips st1 (count e) (start e) Hentry' Hwin)
    as (Hres & Hfin & Hc & Hr & Ht).
  split.
  { intros j Hj. rewrite (Hres j Hj). f_equal.
    pose proof (hits_nonneg ip (take (S j) ips)).
    destruct (_ >? _) eqn:E; [reflexivity|lia]. }
  split; [exact Hfin|].
  rewrite checkRateLimit_run, Hfin.
  rewrite entry_step_fresh.
  - cbn [fst snd]. split; [reflexivity|]. simpl. rewrite lookup_insert_eq.
    unfold now_of. rewrite Hc, Ht. reflexivity.
  - right. eexists. split; [reflexivity|]. simpl. unfold now_of. rewrite Hc, Ht. exact Hafter.
Qed.

End RateLimiter.

(** ** Circuit breaker *)

Section Breaker.

Variable config : Config.

(** C6: the breaker check is a transition point.  It first prunes the
    error window to the entries younger than [circuitBreakerWindow].  While
    CLOSED, a pruned window of at least [circuitBreakerThreshold] entries
    makes it answer [true] and sets OPEN with the opening time [now].
    While OPEN and [now - circuitBreakerOpenTime < circuitBreakerRecovery]
    it answers [true] and stays OPEN with the same opening time, so every
    request is rejected.  The first check with
    [now - circuitBreakerOpenTime >= circuitBreakerRecovery] answers [false],
    sets HALF_OPEN and resets [halfOpenAttempts] to 0. *)
Theorem isCircuitBreakerOpen_transitions (st : State) :
  let now := now_of st in
  let r := isCircuitBreakerOpen config st in
  errorWindow (snd r) = pruned config now (errorWindow st) /\
  (circuitBreakerState st = CLOSED ->
   circuitBreakerThreshold config <= Z.of_nat (length (pruned config now (errorWindow st))) ->
   fst r = true /\ circuitBreakerState (snd r) = OPEN /\
   circuitBreakerOpenTime (snd r) = Some now) /\
  (circuitBreakerState st = OPEN ->
   now - num_of (circuitBreakerOpenTime st) < circuitBreakerRecovery config ->
   fst r = true /\ circuitBreakerState (snd r) = OPEN /\
   circuitBreakerOpenTime (snd r) = circuitBreakerOpenTime st) /\
  (circuitBreakerState st = OPEN ->
   circuitBreakerRecovery config <= now - num_of (circuitBreakerOpenTime st) ->
   fst r = false /\ circuitBreakerState (snd r) = HALF_OPEN /\
   halfOpenAttempts (snd r) = 0).
Proof.
  intros now r. subst now r. unfold isCircuitBreakerOpen, now_of, pruned. run_monad.
  split; [destruct (circuitBreakerState st); simpl; repeat case_match; reflexivity|].
  split; [|split]; intros Hst Hcond; rewrite Hst; simpl.
  - destruct (_ >=? circuitBreakerThreshold config) eqn:E; simpl; [auto|lia].
  - destruct (_ >=? circuitBreakerRecovery config) eqn:E; simpl; [lia|auto].
  - destruct (_ >=? circuitBreakerRecovery config) eqn:E; simpl; [auto|lia].
Qed.

(** [timestamp > Date.now() - circuitBreakerWindow / 2], over the integers. *)
Lemma Qltb_cutoff (now w t : Z) :
  Qltb (inject_Z now - inject_Z w / 2)%Q (inject_Z t) = (2 * (now - t) <? w).
Proof.
  unfold Qltb, Qle_bool, Qminus, Qplus, Qopp, Qdiv, Qmult, Qinv, inject_Z. simpl.
  destruct (2 * (now - t) <? w) eqn:E.
  - apply negb_true_iff, Z.leb_gt. lia.
  - apply negb_false_iff, Z.leb_le. lia.
Qed.

Lemma times_snoc (k : nat) (m : M unit) : forall st,
  snd (times (S k) m st) = snd (m (snd (times k m st))).
Proof.
  induction k as [|k IH]; intros st.
  - simpl. unfold bind, ret. destruct (m st) as [[] s1]. reflexivity.
  - change (times (S (S k)) m) with (bind m (fun _ => times (S k) m)).
    unfold bind at 1. destruct (m st) as [[] s1] eqn:E. rewrite IH.
    simpl. unfold bind. rewrite E. reflexivity.
Qed.

(** A success while HALF_OPEN that does not yet reach the number of probes
    only counts. *)
Lemma recordSuccess_probe st :
  circuitBreakerState st = HALF_OPEN ->
  halfOpenAttempts st + 1 < circuitBreakerHalfOpenRequests config ->
  let s := snd (recordSuccess config st) in
  circuitBreakerState s = HALF_OPEN /\
  halfOpenAttempts s = halfOpenAttempts st + 1 /\
  errorWindow s = errorWindow st /\
  circuitBreakerOpenTime s = circuitBreakerOpenTime st /\
  world s = world st.
Proof.
  intros Hst Hlt. unfold recordSuccess. run_monad. rewrite Hst. simpl.
  destruct (_ >=? circuitBreakerHalfOpenRequests config) eqn:E; [lia|].
  simpl. auto.
Qed.

(** The success that reaches the number of probes closes the breaker. *)
Lemma recordSuccess_close st :
  circuitBreakerState st = HALF_OPEN ->
  circuitBreakerHalfOpenRequests config <= halfOpenAttempts st + 1 ->
  let s := snd (recordSuccess config st) in
  circuitBreakerState s = CLOSED /\
  halfOpenAttempts s = 0 /\
  errorWindow s = younger_half config (now_of st) (errorWindow st) /\
  circuitBreakerOpenTime s = circuitBreakerOpenTime st.
Proof.
  intros Hst Hge. unfold recordSuccess, younger_half, now_of. run_monad. rewrite Hst. simpl.
  destruct (_ >=? circuitBreakerHalfOpenRequests config) eqn:E; [|lia].
  simpl. repeat split.
  apply filter_ext. intros t. apply Qltb_cutoff.
Qed.

Lemma times_recordSuccess_probes (k : nat) : forall st,
  circuitBreakerState st = HALF_OPEN ->
  halfOpenAttempts st + Z.of_nat k < circuitBreakerHalfOpenRequests config ->
  let s := snd (times k (recordSuccess config) st) in
  circuitBreakerState s = HALF_OPEN /\
  halfOpenAttempts s = halfOpenAttempts st + Z.of_nat k /\
  errorWindow s = errorWindow st /\
  circuitBreakerOpenTime s = circuitBreakerOpenTime st /\
  world s = world st.
Proof.
  induction k as [|k IH]; intros st Hst Hlt.
  - simpl. rewrite Z.add_0_r. auto.
  - cbv zeta. rewrite times_snoc.
    destruct (IH st Hst ltac:(lia)) as (H1 & H2 & H3 & H4 & H5).
    destruct (recordSuccess_probe _ H1 ltac:(lia)) as (G1 & G2 & G3 & G4 & G5).
    repeat split; try congruence. rewrite G2, H2. lia.
Qed.

(** C2 (as the code has it): from the state in which the breaker has just
    become HALF_OPEN ([halfOpenAttempts = 0]), and with at least one probe
    configured, fewer than [circuitBreakerHalfOpenRequests] calls of
    [recordSuccess] leave the breaker HALF_OPEN with the error window
    untouched; the call that reaches [circuitBreakerHalfOpenRequests] sets
    CLOSED, resets [halfOpenAttempts] to 0 and keeps of the error window
    exactly the entries younger than [circuitBreakerWindow / 2] at that
    time: the older entries are the ones discarded. *)
Theorem recordSuccess_half_open_closes (st : State) :
  circuitBreakerState st = HALF_OPEN ->
  halfOpenAttempts st = 0 ->
  1 <= circuitBreakerHalfOpenRequests config ->
  let n := Z.to_nat (circuitBreakerHalfOpenRequests config) in
  (forall k, (k < n)%nat ->
     let s := snd (times k (recordSuccess config) st) in
     circuitBreakerState s = HALF_OPEN /\
     halfOpenAttempts s = Z.of_nat k /\
     errorWindow s = errorWindow st) /\
  let s := snd (times n (recordSuccess config) st) in
  circuitBreakerState s = CLOSED /\
  halfOpenAttempts s = 0 /\
  errorWindow s = younger_half config (now_of st) (errorWindow st).
Proof.
  intros Hst Hzero Hn n. split.
  - intros k Hk.
    destruct (times_recordSuccess_probes k st Hst ltac:(lia)) as (H1 & H2 & H3 & _).
    cbv zeta. repeat split; try assumption. lia.
  - destruct n as [|m] eqn:En; [lia|]. cbv zeta. rewrite times_snoc.
    destruct (times_recordSuccess_probes m st Hst ltac:(lia)) as (H1 & H2 & H3 & H4 & H5).
    destruct (recordSuccess_close _ H1 ltac:(lia)) as (G1 & G2 & G3 & G4).
    repeat split; try assumption.
    rewrite G3, H3. unfold now_of. rewrite H5. reflexivity.
Qed.

End Breaker.

(** ** Outage scheduler *)

Lemma Qltb_lt (x y : Q) : Qltb x y = true <-> (x < y)%Q.
Proof.
  unfold Qltb. rewrite negb_true_iff, <- not_true_iff_false, Qle_bool_iff.
  split; [apply Qnot_le_lt|apply Qlt_not_le].
Qed.

Lemma Qltb_ge (x y : Q) : Qltb x y = false <-> (y <= x)%Q.
Proof. unfold Qltb. rewrite negb_false_iff. apply Qle_bool_iff. Qed.

Lemma truthy_num_Some (q : Q) : truthy_num (Some q) = true <-> ~ (q == 0)%Q.
Proof.
  unfold truthy_num. rewrite negb_true_iff, <- not_true_iff_false, Qeq_bool_iff. reflexivity.
Qed.

Section Outage.

Variable config : Config.

(** C8 (as the code has it): with an outage end time [e] set, a call
    before [e] answers [false], makes no draw and leaves the outage window
    as it is.  A call at or after [e] clears the window and then makes the
    usual draw: when the draw does not start an outage the call answers
    [true] with [outageEndTime] and [lastOutageStart] null and [isHealthy]
    true; when it does, the call answers [false] and a new window is set.
    Once the window is cleared, every call whose draw does not start an
    outage answers [true] and leaves it cleared. *)
Theorem checkServiceAvailability_outage_window (st : State) (e : Q) :
  outageEndTime (serviceState st) = Some e ->
  ~ (e == 0)%Q ->
  let now := now_of st in
  let r := checkServiceAvailability config st in
  ((inject_Z now < e)%Q ->
     fst r = false /\ serviceState (snd r) = serviceState st /\
     draws (world (snd r)) = draws (world st)) /\
  ((e <= inject_Z now)%Q -> (outageChance config <= draw_of st)%Q ->
     fst r = true /\
     outageEndTime (serviceState (snd r)) = None /\
     lastOutageStart (serviceState (snd r)) = None /\
     isHealthy (serviceState (snd r)) = true) /\
  ((e <= inject_Z now)%Q -> (draw_of st < outageChance config)%Q ->
     fst r = false /\
     outageEndTime (serviceState (snd r))
       = Some (inject_Z now + drawn_outage config (second_draw_of st))%Q /\
     lastOutageStart (serviceState (snd r)) = Some now /\
     isHealthy (serviceState (snd r)) = false) /\
  (forall s,
     outageEndTime (serviceState s) = None -> isHealthy (serviceState s) = true ->
     (outageChance config <= draw_of s)%Q ->
     fst (checkServiceAvailability config s) = true /\
     serviceState (snd (checkServiceAvailability config s)) = serviceState s).
Proof.
  intros Hend Hset now r. subst now r.
  apply truthy_num_Some in Hset.
  unfold checkServiceAvailability, now_of, draw_of, second_draw_of, drawn_outage.
  split; [|split; [|split]].
  - intros Hlt. apply Qltb_lt in Hlt. run_monad.
    rewrite Hend. change (Qof (Some e)) with e. rewrite Hset, Hlt. simpl. auto.
  - intros Hge Hdraw. apply Qltb_ge in Hge, Hdraw. run_monad.
    rewrite Hend. change (Qof (Some e)) with e. rewrite Hset, Hge. simpl.
    unfold Qltb in Hge. apply negb_false_iff in Hge. rewrite Hge. simpl.
    rewrite Hdraw. simpl. auto.
  - intros Hge Hdraw. apply Qltb_ge in Hge. apply Qltb_lt in Hdraw. run_monad.
    rewrite Hend. change (Qof (Some e)) with e. rewrite Hset, Hge. simpl.
    unfold Qltb in Hge. apply negb_false_iff in Hge. rewrite Hge. simpl.
    rewrite Hdraw. simpl. auto.
  - intros s Hnone Hhealthy Hdraw. apply Qltb_ge in Hdraw. run_monad.
    rewrite Hnone. change (truthy_num None) with false. simpl.
    rewrite Hhealthy. simpl. rewrite Hdraw. simpl.
    split; [exact Hhealthy|reflexivity].
Qed.

End Outage.

(** ** The handler *)

Section Handler.

Variable config : Config.

Instance Date_now_effect : Effect Date_now (fun _ c => c).
Proof. intros s. reflexivity. Qed.

Instance Math_random_effect : Effect Math_random (fun _ c => c).
Proof. intros s. reflexivity. Qed.

Instance generateRequestId_effect : Effect generateRequestId (fun _ c => c).
Proof. intros s. reflexivity. Qed.

Instance measure_effect t : Effect (measure t) (fun _ c => c).
Proof. intros s. reflexivity. Qed.

Instance updateAverage_effect t : Effect (updateAverage t) (fun _ c => c).
Proof. intros s. reflexivity. Qed.

Instance checkRateLimit_effect ip : Effect (checkRateLimit config ip) (fun _ c => c).
Proof. intros s. rewrite checkRateLimit_run. reflexivity. Qed.

Instance checkServiceAvailability_effect :
  Effect (checkServiceAvailability config) (fun _ c => c).
Proof.
  intros s. unfold checkServiceAvailability. run_monad. split_ifs; reflexivity.
Qed.

Instance isInNormalPeriod_effect : Effect (isInNormalPeriod config) (fun _ c => c).
Proof.
  intros s. unfold isInNormalPeriod. run_monad. split_ifs; reflexivity.
Qed.

Instance addDelay_effect : Effect (addDelay config) (fun _ c => c).
Proof.
  intros s. unfold addDelay. run_monad. split_ifs; reflexivity.
Qed.

Instance simulateError_effect : Effect (simulateError config) (fun _ c => c).
Proof.
  intros s. unfold simulateError. run_monad. split_ifs; reflexivity.
Qed.

Instance recordError_effect :
  Effect recordError (fun s c => core_recordError (now_of s) c).
Proof.
  intros s. unfold recordError, core_recordError, core, now_of. run_monad.
  destruct (circuitBreakerState s) eqn:E; simpl; rewrite ?E; reflexivity.
Qed.

Instance recordSuccess_effect :
  Effect (recordSuccess config) (fun s c => core_recordSuccess config (now_of s) c).
Proof.
  intros s. unfold recordSuccess, core_recordSuccess, core, now_of, younger_half. run_monad.
  destruct (circuitBreakerState s) eqn:E; simpl; rewrite ?E; try reflexivity.
  destruct (_ >=? _); simpl; rewrite ?E; [|reflexivity].
  do 4 f_equal. apply filter_ext. intros t. apply Qltb_cutoff.
Qed.

Instance isCircuitBreakerOpen_effect :
  Effect (isCircuitBreakerOpen config)
    (fun s c => snd (core_isCircuitBreakerOpen config (now_of s) c)).
Proof.
  intros s. unfold isCircuitBreakerOpen, core_isCircuitBreakerOpen, core, now_of, pruned.
  run_monad. destruct (circuitBreakerState s) eqn:E; simpl; split_ifs; rewrite ?E; reflexivity.
Qed.

(** The in-line assignments of the handler, on the core. *)
Instance count_request_effect :
  Effect (modify (with_serviceState
                    (fun ss => set_counters (requestCount ss + 1) (successCount ss)
                                 (errorCount ss) ss)))
    (fun _ '(requests, successes, errors, window, state, openTime, attempts) =>
       (requests + 1, successes, errors, window, state, openTime, attempts)).
Proof. intros s. reflexivity. Qed.

Instance set_breaker_effect b :
  Effect (modify (set_breaker b))
    (fun _ '(requests, successes, errors, window, _, openTime, attempts) =>
       (requests, successes, errors, window, b, openTime, attempts)).
Proof. intros s. reflexivity. Qed.

Instance set_openTime_effect t :
  Effect (modify (set_openTime t))
    (fun _ '(requests, successes, errors, window, state, _, attempts) =>
       (requests, successes, errors, window, state, t, attempts)).
Proof. intros s. reflexivity. Qed.

Instance set_halfOpenAttempts_effect n :
  Effect (modify (set_halfOpenAttempts n))
    (fun _ '(requests, successes, errors, window, state, openTime, _) =>
       (requests, successes, errors, window, state, openTime, n)).
Proof. intros s. reflexivity. Qed.

Instance with_errorWindow_effect f :
  Effect (modify (with_errorWindow f))
    (fun _ '(requests, successes, errors, window, state, openTime, attempts) =>
       (requests, successes, errors, f window, state, openTime, attempts)).
Proof. intros s. reflexivity. Qed.

(** One step of symbolic execution: name the result and the state of the
    next call, and record what it did to the core. *)
Ltac step :=
  match goal with
  | |- context [let (_, _) := ?c in _] =>
      match c with
      | ?m ?s =>
          let Hc := fresh "Hc" in
          pose proof (@effect _ m _ _ s) as Hc;
          let a := fresh "a" in
          let s' := fresh "s" in
          destruct (m s) as [a s'] eqn:?; cbn [fst snd] in Hc; cbn beta iota
      end
  | |- context [if ?b then _ else _] => destruct b eqn:?; cbn beta iota
  | |- context [match ?o with Some _ => _ | None => _ end] => destruct o eqn:?; cbn beta iota
  | |- context [match ?o with CLOSED => _ | OPEN => _ | HALF_OPEN => _ end] =>
      destruct o eqn:?; cbn beta iota
  end.

(** Express the core of the final state from the core of the first. *)
Ltac core_back :=
  repeat match goal with
         | Hc : core ?s = _ |- context [core ?s] => rewrite Hc; clear Hc
         end.

Ltac handler_steps :=
  unfold helloHttp, helloHttp_try, helloHttp_admitted, helloHttp_inject, helloHttp_dispatch;
  unfold bind, ret, gets; cbn beta iota; repeat step.

Lemma helloHttp_open_has_time req s :
  open_has_time s -> open_has_time (snd (helloHttp config req s)).
Proof.
  intros H. handler_steps.
  all: cbn [fst snd].
  all: change (core_open_has_time (core s)) in H;
    match goal with |- open_has_time ?s' => change (core_open_has_time (core s')) end.
  all: core_back.
  all: destruct (core s) as [[[[[[requests successes] errors] window] state] openTime] attempts].
  all: unfold core_recordError, core_recordSuccess, core_isCircuitBreakerOpen,
         core_open_has_time in *.
  all: destruct state; simpl; split_ifs; intros; first [discriminate | auto].
Qed.

Lemma serve_open_has_time reqs : forall s,
  open_has_time s -> open_has_time (snd (serve config reqs s)).
Proof.
  induction reqs as [|req reqs IH]; intros s H; [exact H|].
  simpl. unfold bind, ret.
  pose proof (helloHttp_open_has_time req s H) as H1.
  destruct (helloHttp config req s) as [resp s1]. specialize (IH s1 H1).
  destruct (serve config reqs s1) as [resps s2]. exact IH.
Qed.

(** Any transformation of the core that is one of the breaker operations
    keeps the invariant. *)
Lemma core_open_has_time_preserved (now : Z) (c : Core) :
  core_open_has_time c ->
  core_open_has_time (core_recordError now c) /\
  core_open_has_time (core_recordSuccess config now c) /\
  core_open_has_time (snd (core_isCircuitBreakerOpen config now c)).
Proof.
  destruct c as [[[[[[requests successes] errors] window] state] openTime] attempts].
  unfold core_recordError, core_recordSuccess, core_isCircuitBreakerOpen, core_open_has_time.
  intros H. destruct state; simpl; split_ifs; repeat split; intros; first [discriminate | auto].
Qed.

(** C9: whenever [circuitBreakerState] is OPEN, [circuitBreakerOpenTime]
    is a timestamp and not null.  This holds when the script starts and is
    kept by every operation that writes the breaker: [isCircuitBreakerOpen],
    [recordError], [recordSuccess], and the whole handler (which contains
    the reset endpoint), hence after any sequence of requests.  The time is
    the one of the most recent transition into OPEN: an operation that
    leaves the breaker OPEN either found it OPEN and kept its opening time,
    or set the opening time to its own clock reading. *)
Theorem open_breaker_has_open_time :
  (forall w, open_has_time (initial w)) /\
  (forall s, open_has_time s -> open_has_time (snd (isCircuitBreakerOpen config s))) /\
  (forall s, open_has_time s -> open_has_time (snd (recordError s))) /\
  (forall s, open_has_time s -> open_has_time (snd (recordSuccess config s))) /\
  (forall req s, open_has_time s -> open_has_time (snd (helloHttp config req s))) /\
  (forall w reqs, open_has_time (snd (serve config reqs (initial w)))) /\
  (forall s, circuitBreakerState (snd (isCircuitBreakerOpen config s)) = OPEN ->
     circuitBreakerOpenTime (snd (isCircuitBreakerOpen config s))
     = match circuitBreakerState s with
       | OPEN => circuitBreakerOpenTime s
       | _ => Some (now_of s)
       end) /\
  (forall s, circuitBreakerState (snd (recordError s)) = OPEN ->
     circuitBreakerOpenTime (snd (recordError s))
     = match circuitBreakerState s with
       | OPEN => circuitBreakerOpenTime s
       | _ => Some (now_of s)
       end) /\
  (forall s, circuitBreakerState (snd (recordSuccess config s)) = OPEN ->
     circuitBreakerState s = OPEN /\
     circuitBreakerOpenTime (snd (recordSuccess config s)) = circuitBreakerOpenTime s).
Proof.
  split; [intros w; unfold open_has_time; simpl; discriminate|].
  split; [|split; [|split; [|split; [|split; [|split; [|split]]]]]].
  6:{ intros s. unfold isCircuitBreakerOpen, now_of. run_monad.
      destruct (circuitBreakerState s) eqn:E; simpl; split_ifs; rewrite ?E;
        intros H; first [discriminate H | reflexivity]. }
  6:{ intros s. unfold recordError, now_of. run_monad.
      destruct (circuitBreakerState s) eqn:E; simpl; rewrite ?E;
        intros H; first [discriminate H | reflexivity]. }
  6:{ intros s. unfold recordSuccess. run_monad.
      destruct (circuitBreakerState s) eqn:E; simpl; split_ifs; rewrite ?E;
        intros H; first [discriminate H | split; reflexivity]. }
  - intros s H. change (core_open_has_time (core (snd (isCircuitBreakerOpen config s)))).
    rewrite (effect (m := isCircuitBreakerOpen config)).
    apply core_open_has_time_preserved, H.
  - intros s H. change (core_open_has_time (core (snd (recordError s)))).
    rewrite (effect (m := recordError)).
    apply (core_open_has_time_preserved (now_of s) (core s)), H.
  - intros s H. change (core_open_has_time (core (snd (recordSuccess config s)))).
    rewrite (effect (m := recordSuccess config)).
    apply (core_open_has_time_preserved (now_of s) (core s)), H.
  - apply helloHttp_open_has_time.
  - intros w reqs. apply serve_open_has_time. unfold open_has_time. simpl. discriminate.
Qed.

(** Turn the string tests taken on a path into equations. *)
Ltac string_tests :=
  repeat match goal with
         | H : String.eqb _ _ = true |- _ => apply String.eqb_eq in H
         | H : String.eqb _ _ = false |- _ => apply String.eqb_neq in H
         end.

Ltac core_cases :=
  unfold core_recordError, core_recordSuccess, core_isCircuitBreakerOpen in *;
  match goal with
  | |- context [match ?st with CLOSED => _ | OPEN => _ | HALF_OPEN => _ end] =>
      destruct st
  | _ => idtac
  end; simpl; split_ifs.

(** Read the fields of a state through its core. *)
Ltac fields_to_core :=
  repeat match goal with
         | |- context [requestCount (serviceState ?x)] =>
             change (requestCount (serviceState x))
               with (fst (fst (fst (fst (fst (fst (core x)))))))
         | |- context [successCount (serviceState ?x)] =>
             change (successCount (serviceState x))
               with (snd (fst (fst (fst (fst (fst (core x)))))))
         | |- context [errorCount (serviceState ?x)] =>
             change (errorCount (serviceState x)) with (snd (fst (fst (fst (fst (core x))))))
         | |- context [errorWindow ?x] =>
             change (errorWindow x) with (snd (fst (fst (fst (core x)))))
         | |- context [circuitBreakerState ?x] =>
             change (circuitBreakerState x) with (snd (fst (fst (core x))))
         | |- context [circuitBreakerOpenTime ?x] =>
             change (circuitBreakerOpenTime x) with (snd (fst (core x)))
         | |- context [halfOpenAttempts ?x] =>
             change (halfOpenAttempts x) with (snd (core x))
         end.

(** The three scenarios [simulateError] can return. *)
Lemma simulateError_kinds s e s' :
  simulateError config s = (Some e, s') ->
  In (es_status e, es_type e) [(500, server_error); (400, client_error); (408, timeout)].
Proof.
  unfold simulateError. run_monad. split_ifs; intros H; inversion H; subst; simpl; auto.
Qed.

(** *** The handler in two parts *)

(** A request run alone is its two parts run one after the other. *)
Lemma helloHttp_cut req s :
  helloHttp config req s
  = (var outcome := helloHttp_enter config req ;;
     match outcome with
     | inl response => ret response
     | inr requestStart => helloHttp_resume config req requestStart
     end) s.
Proof.
  unfold helloHttp, helloHttp_enter, helloHttp_gates, helloHttp_try, helloHttp_resume.
  unfold bind, ret, gets. cbn beta iota.
  repeat (match goal with
          | |- context [if ?b then _ else _] => destruct b
          | |- context [match ?o with CLOSED => _ | OPEN => _ | HALF_OPEN => _ end] =>
              destruct o
          | |- context [let (_, _) := ?m ?x in _] => destruct (m x)
          end; cbn beta iota); reflexivity.
Qed.

(** The first part of a request other than a preflight is the gates, run
    from the state the request arrived in. *)
Lemma helloHttp_enter_arrived req s :
  String.eqb (method req) "OPTIONS" = false ->
  helloHttp_enter config req s = helloHttp_gates config req (now_of s) (arrived s).
Proof.
  intros H. unfold helloHttp_enter, arrived, bind, ret, Date_now, generateRequestId, modify.
  cbn beta iota. rewrite H. reflexivity.
Qed.

Lemma arrived_core s : core (arrived s) = core_count (core s).
Proof. reflexivity. Qed.

Lemma arrived_now s : now_of (arrived s) = clock (world s) (ticks (world s) + 2)%nat.
Proof.
  unfold arrived, now_of, bind, ret, Date_now, generateRequestId, Math_random, modify. simpl.
  f_equal. lia.
Qed.

Lemma checkRateLimit_time ip s :
  clock (world (snd (checkRateLimit config ip s))) = clock (world s) /\
  ticks (world (snd (checkRateLimit config ip s))) = S (ticks (world s)).
Proof. rewrite checkRateLimit_run. split; reflexivity. Qed.

Lemma checkServiceAvailability_time s :
  clock (world (snd (checkServiceAvailability config s))) = clock (world s) /\
  ticks (world (snd (checkServiceAvailability config s))) = S (ticks (world s)).
Proof.
  unfold checkServiceAvailability. run_monad. split_ifs; split; reflexivity.
Qed.

Lemma simulateError_now s : now_of (snd (simulateError config s)) = now_of s.
Proof. unfold simulateError, now_of. run_monad. split_ifs; reflexivity. Qed.

(** What the injection stage does: a failure is one of the four injected
    kinds and has been recorded; a request let through has not touched the
    clock. *)
Instance helloHttp_inject_effect requestStart :
  Effect (helloHttp_inject config requestStart)
    (fun s c => match fst (helloHttp_inject config requestStart s) with
                | Some _ => core_recordError (now_of s) c
                | None => c
                end).
Proof.
  intros s. unfold helloHttp_inject. unfold bind, ret. cbn beta iota.
  pose proof (simulateError_now s) as Hnow.
  repeat step; cbn [fst snd] in *.
  all: try congruence.
  all: repeat match goal with
         | Hc : core ?x = _ |- context [core ?x] => rewrite Hc
         end.
  all: try reflexivity.
  all: match goal with
       | H : Math_random ?x = (_, ?y) |- _ =>
           replace (now_of y) with (now_of x)
             by (apply (f_equal snd) in H; cbn [snd] in H; subst y; reflexivity)
       | _ => idtac
       end.
  all: try congruence.
  all: rewrite Hnow; reflexivity.
Qed.

Lemma helloHttp_inject_failure requestStart s response s' :
  helloHttp_inject config requestStart s = (Some response, s') ->
  In (res_status response, error_type response)
     [(500, Some server_error); (400, Some client_error); (408, Some timeout);
      (504, Some network_failure)] /\
  circuit_breaker_state response = None /\
  service_metrics response = None.
Proof.
  unfold helloHttp_inject. unfold bind, ret. cbn beta iota. repeat step.
  all: intros H; inversion H; subst; clear H.
  all: repeat match goal with
         | H : simulateError _ _ = (Some _, _) |- _ =>
             apply simulateError_kinds in H; simpl in H;
             destruct H as [H|[H|[H|[]]]]; inversion H; clear H
         end.
  all: cbn [res_status error_type circuit_breaker_state service_metrics error_response].
  all: repeat match goal with
         | H : _ = es_status _ |- _ => rewrite <- H
         | H : _ = es_type _ |- _ => rewrite <- H
         end.
  all: simpl; auto 10.
Qed.

Lemma helloHttp_inject_pass requestStart s s' :
  helloHttp_inject config requestStart s = (None, s') -> now_of s' = now_of s.
Proof.
  unfold helloHttp_inject. unfold bind, ret. cbn beta iota.
  pose proof (simulateError_now s) as Hnow.
  repeat step; cbn [fst snd] in *.
  all: intros H; inversion H; subst; clear H.
  all: match goal with
       | H : Math_random ?x = (_, ?y) |- _ =>
           apply (f_equal snd) in H; cbn [snd] in H; subst y
       end.
  all: exact Hnow.
Qed.

(** Symbolic execution of a part of the handler, the injection stage taken
    as one step. *)
Ltac segment_steps :=
  unfold helloHttp_enter, helloHttp_gates, helloHttp_resume, helloHttp_admitted,
    helloHttp_dispatch;
  unfold bind, ret, gets; cbn beta iota; repeat (step; cbn [fst snd]).

(** What is known of the injection stage on a path. *)
Ltac inject_facts :=
  repeat match goal with
         | H : helloHttp_inject _ _ _ = (Some _, _) |- _ =>
             apply helloHttp_inject_failure in H; simpl in H;
             destruct H as ([H|[H|[H|[H|[]]]]] & ? & ?); inversion H; clear H
         | H : helloHttp_inject _ _ _ = (None, _) |- _ =>
             apply helloHttp_inject_pass in H
         end.


(** After a step over the injection stage, read its effect with the result
    found on the path. *)
Ltac inject_effect :=
  repeat match goal with
         | H : helloHttp_inject _ _ ?x = _, Hc : context [helloHttp_inject _ _ ?x] |- _ =>
             rewrite H in Hc; cbn [fst] in Hc
         end.



Ltac window_to_core :=
  repeat match goal with
         | |- context [errorWindow ?x] =>
             change (errorWindow x) with (snd (fst (fst (fst (core x)))))
         end.

Lemma helloHttp_gates_window req requestStart s :
  window_entered (fst (helloHttp_gates config req requestStart s)) (errorWindow s)
    (pruned config
       (now_of (snd (checkServiceAvailability config
                       (snd (checkRateLimit config (client_key req) s)))))
       (errorWindow s))
    (errorWindow (snd (helloHttp_gates config req requestStart s))).
Proof.
  unfold client_key. segment_steps.
  all: unfold window_entered; cbn [fst snd error_type error_response].
  all: window_to_core.
  all: repeat match goal with
         | Hc : core ?x = _ |- context [core ?x] => rewrite Hc
         end.
  all: destruct (core s) as [[[[[[requests successes] errors] window] state] openTime] attempts].
  all: core_cases.
  all: first [reflexivity | eexists; reflexivity].
Qed.

Lemma helloHttp_enter_window req s :
  window_entered (fst (helloHttp_enter config req s)) (errorWindow s)
    (pruned config (clock (world s) (ticks (world s) + 4)%nat) (errorWindow s))
    (errorWindow (snd (helloHttp_enter config req s))).
Proof.
  destruct (String.eqb (method req) "OPTIONS") eqn:E.
  - unfold helloHttp_enter, bind, ret, Date_now, generateRequestId, modify.
    cbn beta iota. rewrite E. reflexivity.
  - rewrite helloHttp_enter_arrived by exact E.
    pose proof (helloHttp_gates_window req (now_of s) (arrived s)) as H.
    replace (clock (world s) (ticks (world s) + 4)%nat)
      with (now_of (snd (checkServiceAvailability config
                           (snd (checkRateLimit config (client_key req) (arrived s)))))).
    + exact H.
    + unfold now_of.
      destruct (checkServiceAvailability_time
                  (snd (checkRateLimit config (client_key req) (arrived s)))) as [-> ->].
      destruct (checkRateLimit_time (client_key req) (arrived s)) as [-> ->].
      pose proof (arrived_now s) as Hn. unfold now_of in Hn.
      assert (Hc : clock (world (arrived s)) = clock (world s)) by reflexivity.
      assert (Ht : ticks (world (arrived s)) = S (S (ticks (world s)))) by reflexivity.
      rewrite Hc, Ht. f_equal. lia.
Qed.

(** The tests of the dispatch on a path, as equations. *)
Ltac dispatch_tests :=
  repeat match goal with
         | H : (_ || _)%bool = true |- _ => apply orb_true_iff in H; destruct H
         | H : (_ || _)%bool = false |- _ => apply orb_false_iff in H; destruct H
         | H : negb _ = true |- _ => apply negb_true_iff in H
         | H : negb _ = false |- _ => apply negb_false_iff in H
         | H : String.eqb ?x _ = true |- _ => apply String.eqb_eq in H; rewrite H in *
         end;
  repeat match goal with
         | H : String.eqb ?x ?y = _ |- context [String.eqb ?x ?y] => rewrite H
         end;
  cbn [String.eqb Ascii.eqb Bool.eqb andb orb negb] in *;
  rewrite ?andb_false_r, ?andb_true_r in *;
  repeat match goal with
         | H : ?b = _ |- context [if ?b then _ else _] => rewrite H
         end;
  try discriminate.

Lemma helloHttp_resume_window req requestStart s :
  window_resumed req (fst (helloHttp_resume config req requestStart s)) (errorWindow s)
    (errorWindow (snd (recordSuccess config (snd (isInNormalPeriod config s)))))
    (errorWindow (snd (helloHttp_resume config req requestStart s))).
Proof.
  segment_steps.
  all: inject_effect; inject_facts.
  all: repeat match goal with
         | H : Some _ = Some _ |- _ => inversion H; subst; clear H
         end.
  all: unfold window_resumed, is_reset, pathname_of;
    cbn [fst snd error_type error_response success_response].
  all: repeat match goal with
         | H : _ = error_type _ |- _ => rewrite <- H
         end.
  all: dispatch_tests.
  all: window_to_core.
  all: rewrite ?(effect (m := recordSuccess config)).
  all: repeat match goal with
         | Hc : core ?x = _ |- context [core ?x] => rewrite Hc
         end.
  all: repeat match goal with
         | H : now_of _ = now_of _ |- _ => rewrite H
         end.
  all: destruct (core s) as [[[[[[requests successes] errors] window] state] openTime] attempts].
  all: core_cases.
  all: first [reflexivity | eexists; reflexivity].
Qed.

(** C3 (as the code has it): every request answered with a failure, of
    whatever kind, [validation_error] included, leaves the error window
    with exactly one timestamp appended, and a request that is not answered
    with a failure appends nothing.  Before the await: a [rate_limit] or
    [service_unavailable] response leaves the window the request found plus
    one timestamp; a [circuit_breaker_open] response leaves what the breaker
    check (the fifth clock reading of the request) kept of it plus one
    timestamp; a preflight request leaves the window as it is and a request
    suspended at the await leaves what the breaker check kept.  After the
    await: an injected failure leaves the window found at resumption plus
    one timestamp; a [validation_error] or [unexpected_error] leaves what
    [recordSuccess] left plus one timestamp; a response without failure
    leaves what [recordSuccess] left, or the empty window for the reset
    endpoint. *)
Theorem every_failure_feeds_error_window
    (req : Request) (requestStart : Z) (s s' : State) :
  let entered := helloHttp_enter config req s in
  let checked :=
    pruned config (clock (world s) (ticks (world s) + 4)%nat) (errorWindow s) in
  let resumed := helloHttp_resume config req requestStart s' in
  let recorded := errorWindow (snd (recordSuccess config (snd (isInNormalPeriod config s')))) in
  match fst entered with
  | inl response =>
      match error_type response with
      | Some circuit_breaker_open => exists t, errorWindow (snd entered) = checked ++ [t]
      | Some _ => exists t, errorWindow (snd entered) = errorWindow s ++ [t]
      | None => errorWindow (snd entered) = errorWindow s
      end
  | inr _ => errorWindow (snd entered) = checked
  end /\
  match error_type (fst resumed) with
  | Some validation_error | Some unexpected_error =>
      exists t, errorWindow (snd resumed) = recorded ++ [t]
  | Some _ => exists t, errorWindow (snd resumed) = errorWindow s' ++ [t]
  | None => errorWindow (snd resumed) = (if is_reset req then [] else recorded)
  end.
Proof.
  intros entered checked resumed recorded. split.
  - exact (helloHttp_enter_window req s).
  - exact (helloHttp_resume_window req requestStart s').
Qed.

Ltac counters_to_core :=
  repeat match goal with
         | |- context [requestCount (serviceState ?x)] =>
             change (requestCount (serviceState x))
               with (fst (fst (fst (fst (fst (fst (core x)))))))
         | |- context [successCount (serviceState ?x)] =>
             change (successCount (serviceState x))
               with (snd (fst (fst (fst (fst (fst (core x)))))))
         | |- context [errorCount (serviceState ?x)] =>
             change (errorCount (serviceState x)) with (snd (fst (fst (fst (fst (core x))))))
         end.

Lemma helloHttp_enter_counted req s :
  counted_entered req (fst (helloHttp_enter config req s)) (core s)
    (core (snd (helloHttp_enter config req s))).
Proof.
  segment_steps.
  all: cbn [fst snd].
  all: repeat match goal with
         | Hc : core ?x = _ |- context [core ?x] => rewrite Hc
         end.
  all: destruct (core s) as [[[[[[requests successes] errors] window] state] openTime] attempts].
  all: unfold counted_entered; core_cases.
  all: cbn [error_type error_response].
  all: string_tests.
  all: repeat split; try reflexivity; try assumption; try lia; simpl; auto.
Qed.

Lemma helloHttp_resume_counted req requestStart s :
  counted_resumed (fst (helloHttp_resume config req requestStart s)) (core s)
    (core (snd (helloHttp_resume config req requestStart s))).
Proof.
  segment_steps.
  all: inject_effect; inject_facts.
  all: repeat match goal with
         | H : Some _ = Some _ |- _ => inversion H; subst; clear H
         end.
  all: cbn [fst snd].
  all: repeat match goal with
         | Hc : core ?x = _ |- context [core ?x] => rewrite Hc
         end.
  all: destruct (core s) as [[[[[[requests successes] errors] window] state] openTime] attempts].
  all: unfold counted_resumed; core_cases.
  all: cbn [error_type error_response success_response].
  all: repeat match goal with
         | H : _ = error_type _ |- _ => rewrite <- H
         end.
  all: repeat split; try reflexivity; try lia.
Qed.

Lemma how_many_cons {A} (f : A -> bool) (x : A) (l : list A) :
  how_many f (x :: l) = (if f x then 1 else 0) + how_many f l.
Proof.
  unfold how_many. simpl. destruct (f x); simpl length; lia.
Qed.

Lemma how_many_nil {A} (f : A -> bool) : how_many f [] = 0.
Proof. reflexivity. Qed.

(** The counters of a part of a request, read on the state. *)
Lemma helloHttp_enter_balance req s :
  let r := helloHttp_enter config req s in
  requestCount (serviceState (snd r)) = requestCount (serviceState s) + 1 /\
  match fst r with
  | inl response =>
      counted_twice response = false /\
      balance (snd r)
      = balance s + (if String.eqb (method req) "OPTIONS" then 1 else 0)
  | inr _ =>
      String.eqb (method req) "OPTIONS" = false /\ balance (snd r) = balance s + 1
  end.
Proof.
  intros r. subst r. pose proof (helloHttp_enter_counted req s) as H.
  unfold counted_entered, core, balance in *.
  destruct H as (Hr & Hs & H). split; [exact Hr|].
  destruct (fst (helloHttp_enter config req s)) as [response|start].
  - unfold counted_twice. destruct (error_type response) as [k|].
    + destruct H as (Hm & Hk & He). apply String.eqb_neq in Hm. rewrite Hm.
      split; [|lia]. simpl in Hk. intuition (subst; reflexivity).
    + destruct H as (Hm & He). apply String.eqb_eq in Hm. rewrite Hm.
      split; [reflexivity|lia].
  - destruct H as (Hm & He). apply String.eqb_neq in Hm. split; [exact Hm|lia].
Qed.

Lemma helloHttp_resume_balance req requestStart s :
  let r := helloHttp_resume config req requestStart s in
  requestCount (serviceState (snd r)) = requestCount (serviceState s) /\
  balance (snd r) + (if counted_twice (fst r) then 1 else 0) = balance s - 1.
Proof.
  intros r. subst r. pose proof (helloHttp_resume_counted req requestStart s) as H.
  unfold counted_resumed, core, balance, counted_twice in *.
  destruct H as (Hr & H). split; [exact Hr|].
  destruct (error_type (fst (helloHttp_resume config req requestStart s))) as [[]|];
    lia.
Qed.

Lemma run_counters events : forall waiting s,
  let r := run config events waiting s in
  requestCount (serviceState (snd r))
  = requestCount (serviceState s) + how_many is_arrival events /\
  balance (snd r) + how_many counted_twice (fst (fst r))
  = balance s + how_many is_preflight events
    + Z.of_nat (length (snd (fst r))) - Z.of_nat (length waiting).
Proof.
  induction events as [|[req|i] rest IH]; intros waiting s.
  - simpl. rewrite !how_many_nil. lia.
  - cbn [run]. unfold bind, ret. rewrite !how_many_cons. cbn [is_arrival is_preflight].
    pose proof (helloHttp_enter_balance req s) as H. cbv zeta in H.
    destruct (helloHttp_enter config req s) as [[response|start] s1]; cbn [fst snd] in H.
    + destruct H as (Hr & Ht & Hb). specialize (IH waiting s1). cbv zeta in IH.
      destruct (run config rest waiting s1) as [[responses waiting'] s2].
      cbn [fst snd] in *. rewrite how_many_cons, Ht. lia.
    + destruct H as (Hr & Hm & Hb). specialize (IH (waiting ++ [(req, start)]) s1).
      cbv zeta in IH. rewrite Hm.
      destruct (run config rest (waiting ++ [(req, start)]) s1) as [[responses waiting'] s2].
      cbn [fst snd] in *. rewrite length_app in IH. cbn [length] in IH. lia.
  - cbn [run]. rewrite !how_many_cons. cbn [is_arrival is_preflight].
    destruct (waiting !! i) as [[req start]|] eqn:E.
    + unfold bind, ret.
      pose proof (helloHttp_resume_balance req start s) as H. cbv zeta in H.
      destruct (helloHttp_resume config req start s) as [response s1]; cbn [fst snd] in H.
      destruct H as (Hr & Hb). specialize (IH (delete i waiting) s1). cbv zeta in IH.
      destruct (run config rest (delete i waiting) s1) as [[responses waiting'] s2].
      cbn [fst snd] in *. rewrite how_many_cons.
      assert (Hl : length (delete i waiting) = (length waiting - 1)%nat)
        by (apply length_delete; rewrite E; eauto).
      apply lookup_lt_Some in E. rewrite Hl in IH. lia.
    + specialize (IH waiting s). cbv zeta in IH. lia.
Qed.

(** C4 (as the code has it): a request is counted when it arrives and
    recorded as a success or an error when it is answered, and other
    requests can run in between, at the await.  The first part of a request
    adds exactly one to [requestCount] and nothing to [successCount]; it
    adds one to [errorCount] exactly when a gate rejects the request, and a
    preflight request is answered without being recorded.  The second part
    leaves [requestCount] and records the request: one success, or one
    error for an injected failure, or both for a [validation_error] or an
    [unexpected_error].  Hence under every schedule [requestCount] never
    decreases, it has grown by the number of arrivals, and from the start of
    the script
    [requestCount = successCount + errorCount + preflight requests
                    + requests suspended at the await
                    - responses recorded twice]. *)
Theorem request_counters :
  (forall req s,
     let r := helloHttp_enter config req s in
     requestCount (serviceState (snd r)) = requestCount (serviceState s) + 1 /\
     successCount (serviceState (snd r)) = successCount (serviceState s) /\
     match fst r with
     | inl response =>
         match error_type response with
         | Some k =>
             method req <> "OPTIONS"%string /\
             In k [rate_limit; service_unavailable; circuit_breaker_open] /\
             errorCount (serviceState (snd r)) = errorCount (serviceState s) + 1
         | None =>
             method req = "OPTIONS"%string /\
             errorCount (serviceState (snd r)) = errorCount (serviceState s)
         end
     | inr _ =>
         method req <> "OPTIONS"%string /\
         errorCount (serviceState (snd r)) = errorCount (serviceState s)
     end) /\
  (forall req requestStart s,
     let r := helloHttp_resume config req requestStart s in
     requestCount (serviceState (snd r)) = requestCount (serviceState s) /\
     match error_type (fst r) with
     | None =>
         successCount (serviceState (snd r)) = successCount (serviceState s) + 1 /\
         errorCount (serviceState (snd r)) = errorCount (serviceState s)
     | Some validation_error | Some unexpected_error =>
         successCount (serviceState (snd r)) = successCount (serviceState s) + 1 /\
         errorCount (serviceState (snd r)) = errorCount (serviceState s) + 1
     | Some _ =>
         successCount (serviceState (snd r)) = successCount (serviceState s) /\
         errorCount (serviceState (snd r)) = errorCount (serviceState s) + 1
     end) /\
  (forall events waiting s,
     let r := run config events waiting s in
     requestCount (serviceState (snd r))
     = requestCount (serviceState s) + how_many is_arrival events /\
     requestCount (serviceState (snd r)) - successCount (serviceState (snd r))
     - errorCount (serviceState (snd r)) + how_many counted_twice (fst (fst r))
     = requestCount (serviceState s) - successCount (serviceState s)
       - errorCount (serviceState s) + how_many is_preflight events
       + Z.of_nat (length (snd (fst r))) - Z.of_nat (length waiting)) /\
  (forall events w,
     let r := run config events [] (initial w) in
     requestCount (serviceState (snd r))
     = successCount (serviceState (snd r)) + errorCount (serviceState (snd r))
       + how_many is_preflight events + Z.of_nat (length (snd (fst r)))
       - how_many counted_twice (fst (fst r))).
Proof.
  split; [intros req s; exact (helloHttp_enter_counted req s)|].
  split; [intros req requestStart s; exact (helloHttp_resume_counted req requestStart s)|].
  split; [intros events waiting s; exact (run_counters events waiting s)|].
  intros events w r. subst r.
  destruct (run_counters events [] (initial w)) as [_ H].
  unfold balance in H. simpl in H. lia.
Qed.

(** C5 (as the code has it): when [isInNormalPeriod] answers [true], the
    rest of the handler makes no error injection and no drop: the request is
    recorded as a success, and its response is never a [server_error],
    [client_error], [timeout] or [network_failure].  The response is a 200
    unless the request is a POST to /hello without [name], which is answered
    400 [validation_error] (or unless the dispatch throws, which only a GET
    without query object does). *)
Theorem normal_period_suppresses_injection
    (req : Request) (requestStart : Z) (pathname : string) (s : State) :
  fst (isInNormalPeriod config s) = true ->
  let r := (var inNormalPeriod := isInNormalPeriod config ;;
            helloHttp_admitted config req requestStart pathname inNormalPeriod) s in
  successCount (serviceState (snd r)) = successCount (serviceState s) + 1 /\
  match fst r with
  | Some response =>
      ~ In (error_type response)
          [Some server_error; Some client_error; Some timeout; Some network_failure] /\
      (res_status response = 200 /\ error_type response = None \/
       res_status response = 400 /\ error_type response = Some validation_error /\
       method req = "POST"%string /\ pathname = "/hello"%string /\
       truthy_str (body_name req) = false)
  | None => method req = "GET"%string /\ query req = None
  end.
Proof.
  intros Hnormal r. subst r.
  assert (Hrun : (var inNormalPeriod := isInNormalPeriod config ;;
                  helloHttp_admitted config req requestStart pathname inNormalPeriod) s
                 = helloHttp_admitted config req requestStart pathname true
                     (snd (isInNormalPeriod config s))).
  { unfold bind. destruct (isInNormalPeriod config s) as [b s0].
    cbn [fst snd] in *. subst b. reflexivity. }
  rewrite Hrun. clear Hrun.
  pose proof (@effect _ (isInNormalPeriod config) _ _ s) as Hc0.
  set (s0 := snd (isInNormalPeriod config s)) in *. clearbody s0. clear Hnormal.
  unfold helloHttp_admitted, helloHttp_dispatch. cbn [negb].
  unfold bind, ret, gets; cbn beta iota; repeat step.
  all: cbn [fst snd] in *.
  all: repeat match goal with
         | H : Some _ = Some _ |- _ => inversion H; subst; clear H
         | H : Some _ = None |- _ => discriminate H
         | H : None = Some _ |- _ => discriminate H
         end.
  all: repeat match goal with
         | |- context [successCount (serviceState ?x)] =>
             change (successCount (serviceState x)) with (snd (fst (fst (fst (fst (fst (core x)))))))
         end.
  all: core_back.
  all: destruct (core s) as [[[[[[requests successes] errors] window] state] openTime] attempts].
  all: core_cases.
  all: string_tests.
  all: repeat match goal with
         | H : _ && _ = true |- _ => apply andb_true_iff in H; destruct H
         | H : negb _ = true |- _ => apply negb_true_iff in H
         end; string_tests.
  all: simpl; repeat split; try reflexivity; try assumption.
  all: try (intros Hin; simpl in Hin; intuition discriminate).
  all: try (left; split; reflexivity).
  all: try (right; repeat split; assumption).
Qed.

(** *** Further properties of the handler *)

(** The status code of every response is the one of its failure kind (429
    rate limit, 503 outage and open breaker, 500/400/408 injected errors, 504
    network failure, 400 validation, 500 unexpected); a response without
    failure is 204 for a preflight request and 200 otherwise. *)
Theorem helloHttp_status (req : Request) (s : State) :
  let response := fst (helloHttp config req s) in
  match error_type response with
  | Some k => res_status response = expected_status k
  | None =>
      res_status response = (if String.eqb (method req) "OPTIONS" then 204 else 200)
  end.
Proof.
  change (status_as_expected req (fst (helloHttp config req s))).
  handler_steps.
  all: cbn [fst snd]; unfold status_as_expected.
  all: repeat match goal with
         | H : simulateError _ _ = (Some _, _) |- _ =>
             apply simulateError_kinds in H; simpl in H;
             destruct H as [H|[H|[H|[]]]]; inversion H; clear H
         end.
  all: simpl;
    repeat match goal with
           | H : String.eqb (method _) "OPTIONS" = _ |- _ => rewrite H
           end; reflexivity.
Qed.

Lemma helloHttp_accounted req s :
  accounted req (fst (helloHttp config req s)) (core s) (core (snd (helloHttp config req s))).
Proof.
  handler_steps.
  all: cbn [fst snd]; core_back.
  all: destruct (core s) as [[[[[[requests successes] errors] window] state] openTime] attempts].
  all: unfold accounted; core_cases.
  all: repeat match goal with
         | H : simulateError _ _ = (Some _, _) |- _ =>
             apply simulateError_kinds in H; simpl in H;
             destruct H as [H|[H|[H|[]]]]; inversion H; clear H
         end.
  all: simpl; repeat match goal with
                     | H : String.eqb (method _) "OPTIONS" = _ |- _ => rewrite H
                     end.
  all: repeat split; try reflexivity; try lia.
Qed.

(** The complete account of the counters: every request adds one to
    [requestCount]; a response without failure adds one to [successCount]
    (nothing for a preflight request) and leaves [errorCount]; a failure
    adds one to [errorCount], and leaves [successCount] unless it is a
    [validation_error] or an [unexpected_error], which are raised after the
    request has been recorded as a success and so add one to both. *)
Theorem helloHttp_counters_account (req : Request) (s : State) :
  let r := helloHttp config req s in
  let before := serviceState s in
  let after := serviceState (snd r) in
  requestCount after = requestCount before + 1 /\
  match error_type (fst r) with
  | None =>
      errorCount after = errorCount before /\
      successCount after
      = (if String.eqb (method req) "OPTIONS" then successCount before
         else successCount before + 1)
  | Some validation_error | Some unexpected_error =>
      errorCount after = errorCount before + 1 /\
      successCount after = successCount before + 1
  | Some _ =>
      errorCount after = errorCount before + 1 /\
      successCount after = successCount before
  end.
Proof.
  exact (helloHttp_accounted req s).
Qed.

Lemma helloHttp_enter_no_metrics req s :
  no_metrics (fst (helloHttp_enter config req s)).
Proof.
  segment_steps.
  all: reflexivity.
Qed.

Lemma helloHttp_resume_health_reported req requestStart s :
  health_reported req (fst (helloHttp_resume config req requestStart s)) (core s)
    (core (snd (helloHttp_resume config req requestStart s))).
Proof.
  segment_steps.
  all: inject_effect; inject_facts.
  all: repeat match goal with
         | H : Some _ = Some _ |- _ => inversion H; subst; clear H
         end.
  all: cbn [fst snd]; unfold health_reported, pathname_of; cbn [service_metrics error_type
         error_response success_response].
  all: repeat match goal with
         | H : service_metrics _ = None |- _ => rewrite H
         | H : _ = error_type _ |- _ => rewrite <- H
         end.
  all: fields_to_core.
  all: repeat match goal with
         | Hc : core ?x = _ |- context [core ?x] => rewrite Hc
         end.
  all: destruct (core s) as [[[[[[requests successes] errors] window] state] openTime] attempts].
  all: unfold metrics_snapshot; core_cases.
  all: string_tests.
  all: repeat match goal with
         | H : _ || _ = true |- _ => apply orb_true_iff in H
         | H : _ || _ = false |- _ => apply orb_false_iff in H; destruct H
         end; string_tests.
  all: simpl; try (left; discriminate); try (right; split; assumption).
  all: repeat split; try reflexivity; try assumption; try lia.
  all: repeat match goal with
         | H : _ \/ _ |- _ => destruct H
         end; string_tests; auto.
Qed.

(** Metrics are sent only by a request that has passed the gates and the
    await, with a response without failure, when its path is / or /health,
    and with every such response.  They are read when the request is
    answered: the totals are those of the state the request leaves, that is
    the counters it found when it resumed (which include what other
    requests did while it was suspended) with its own success added. *)
Theorem helloHttp_metrics (req : Request) (requestStart : Z) (s s' : State) :
  let entered := helloHttp_enter config req s in
  let r := helloHttp_resume config req requestStart s' in
  let found := serviceState s' in
  let left := serviceState (snd r) in
  match fst entered with
  | inl response => service_metrics response = None
  | inr _ => True
  end /\
  match service_metrics (fst r) with
  | Some m =>
      error_type (fst r) = None /\
      (pathname_of req = "/"%string \/ pathname_of req = "/health"%string) /\
      total_requests m = requestCount found /\
      successful_requests m = successCount found + 1 /\
      failed_requests m = errorCount found /\
      total_requests m = requestCount left /\
      successful_requests m = successCount left /\
      failed_requests m = errorCount left /\
      circuit_breaker_errors m = length (errorWindow (snd r)) /\
      half_open_attempts m = halfOpenAttempts (snd r)
  | None =>
      error_type (fst r) <> None \/
      (pathname_of req <> "/"%string /\ pathname_of req <> "/health"%string)
  end.
Proof.
  split.
  - exact (helloHttp_enter_no_metrics req s).
  - exact (helloHttp_resume_health_reported req requestStart s').
Qed.


Lemma isCircuitBreakerOpen_answer s :
  fst (isCircuitBreakerOpen config s)
  = fst (core_isCircuitBreakerOpen config (now_of s) (core s)).
Proof.
  unfold isCircuitBreakerOpen, core_isCircuitBreakerOpen, core, now_of, pruned. run_monad.
  destruct (circuitBreakerState s); simpl; split_ifs; reflexivity.
Qed.

Lemma helloHttp_enter_breaker req s :
  breaker_entered (fst (helloHttp_enter config req s))
    (core (snd (helloHttp_enter config req s))).
Proof.
  segment_steps.
  all: cbn [fst snd]; unfold breaker_entered.
  all: repeat match goal with
         | H : isCircuitBreakerOpen _ ?x = (?b, _) |- _ =>
             apply (f_equal fst) in H; rewrite isCircuitBreakerOpen_answer in H;
             cbn [fst] in H; revert H
         | H : circuitBreakerState _ = _ |- _ => revert H
         end.
  all: fields_to_core;
    repeat match goal with
           | Hc : core ?x = _ |- context [core ?x] => rewrite Hc
           end.
  all: destruct (core s) as [[[[[[requests successes] errors] window] state] openTime] attempts].
  all: core_cases.
  all: simpl; intros; repeat split; intros; try discriminate; try congruence.
Qed.

Lemma helloHttp_resume_breaker req requestStart s :
  breaker_resumed (fst (helloHttp_resume config req requestStart s)) (core s)
    (core (snd (helloHttp_resume config req requestStart s))).
Proof.
  segment_steps.
  all: inject_effect; inject_facts.
  all: repeat match goal with
         | H : Some _ = Some _ |- _ => inversion H; subst; clear H
         end.
  all: cbn [fst snd]; unfold breaker_resumed.
  all: cbn [error_type error_response success_response].
  all: repeat match goal with
         | H : _ = error_type _ |- _ => rewrite <- H
         end.
  all: repeat match goal with
         | Hc : core ?x = _ |- context [core ?x] => rewrite Hc
         end.
  all: destruct (core s) as [[[[[[requests successes] errors] window] state] openTime] attempts].
  all: core_cases.
  all: simpl; intros; repeat split; intros; try discriminate; try congruence.
Qed.

(** The breaker a request leaves.  A request answered with a failure,
    before or after the await, never leaves it HALF_OPEN (a failed probe has
    re-opened it); a [circuit_breaker_open] response always leaves it OPEN
    and says so in its payload, and is only sent before the await; a request
    suspended at the await leaves it CLOSED or HALF_OPEN; and a resumed
    request answered without failure never opens it: it leaves the breaker
    OPEN only if it found it OPEN when it resumed, another request having
    failed meanwhile. *)
Theorem helloHttp_breaker_state (req : Request) (requestStart : Z) (s s' : State) :
  let entered := helloHttp_enter config req s in
  let r := helloHttp_resume config req requestStart s' in
  match fst entered with
  | inl response =>
      (forall k, error_type response = Some k ->
                 circuitBreakerState (snd entered) <> HALF_OPEN) /\
      (error_type response = Some circuit_breaker_open ->
       circuitBreakerState (snd entered) = OPEN /\
       circuit_breaker_state response = Some OPEN)
  | inr _ => circuitBreakerState (snd entered) <> OPEN
  end /\
  (forall k, error_type (fst r) = Some k -> circuitBreakerState (snd r) <> HALF_OPEN) /\
  (error_type (fst r) = None -> circuitBreakerState (snd r) = OPEN ->
   circuitBreakerState s' = OPEN) /\
  error_type (fst r) <> Some circuit_breaker_open.
Proof.
  split.
  - exact (helloHttp_enter_breaker req s).
  - exact (helloHttp_resume_breaker req requestStart s').
Qed.


(** *** The rate limiter inside the handler *)

Ltac keeps_by_unfolding :=
  intros s; run_monad; split_ifs; reflexivity.

Instance Date_now_keeps : KeepsLimiter Date_now.
Proof. keeps_by_unfolding. Qed.

Instance Math_random_keeps : KeepsLimiter Math_random.
Proof. keeps_by_unfolding. Qed.

Instance measure_keeps t : KeepsLimiter (measure t).
Proof. keeps_by_unfolding. Qed.

Instance updateAverage_keeps t : KeepsLimiter (updateAverage t).
Proof. keeps_by_unfolding. Qed.

Instance set_breaker_keeps b : KeepsLimiter (modify (set_breaker b)).
Proof. keeps_by_unfolding. Qed.

Instance set_openTime_keeps t : KeepsLimiter (modify (set_openTime t)).
Proof. keeps_by_unfolding. Qed.

Instance set_halfOpenAttempts_keeps n : KeepsLimiter (modify (set_halfOpenAttempts n)).
Proof. keeps_by_unfolding. Qed.

Instance with_errorWindow_keeps f : KeepsLimiter (modify (with_errorWindow f)).
Proof. keeps_by_unfolding. Qed.

Instance checkServiceAvailability_keeps : KeepsLimiter (checkServiceAvailability config).
Proof. unfold checkServiceAvailability. keeps_by_unfolding. Qed.

Instance isInNormalPeriod_keeps : KeepsLimiter (isInNormalPeriod config).
Proof. unfold isInNormalPeriod. keeps_by_unfolding. Qed.

Instance addDelay_keeps : KeepsLimiter (addDelay config).
Proof. unfold addDelay. keeps_by_unfolding. Qed.

Instance simulateError_keeps : KeepsLimiter (simulateError config).
Proof. unfold simulateError. keeps_by_unfolding. Qed.

Instance recordError_keeps : KeepsLimiter recordError.
Proof.
  intros s. unfold recordError. run_monad. destruct (circuitBreakerState s); reflexivity.
Qed.

Instance recordSuccess_keeps : KeepsLimiter (recordSuccess config).
Proof.
  intros s. unfold recordSuccess. run_monad.
  destruct (circuitBreakerState s); simpl; split_ifs; reflexivity.
Qed.

Instance isCircuitBreakerOpen_keeps : KeepsLimiter (isCircuitBreakerOpen config).
Proof.
  intros s. unfold isCircuitBreakerOpen. run_monad.
  destruct (circuitBreakerState s); simpl; split_ifs; reflexivity.
Qed.

(** One step of symbolic execution that records what the call did to the
    map of the rate limiter. *)
Ltac limiter_step :=
  match goal with
  | |- context [let (_, _) := ?c in _] =>
      match c with
      | ?m ?s =>
          let Hk := fresh "Hk" in
          pose proof (@keeps_limiter _ m _ s) as Hk;
          let a := fresh "a" in
          let s' := fresh "s" in
          destruct (m s) as [a s'] eqn:?; cbn [fst snd] in Hk; cbn beta iota
      end
  | |- context [if ?b then _ else _] => destruct b eqn:?; cbn beta iota
  | |- context [match ?o with Some _ => _ | None => _ end] => destruct o eqn:?; cbn beta iota
  | |- context [match ?o with CLOSED => _ | OPEN => _ | HALF_OPEN => _ end] =>
      destruct o eqn:?; cbn beta iota
  end.

(** Past the rate limiter nothing writes its map, and no response is a
    [rate_limit]. *)
Lemma helloHttp_try_keeps_limiter req requestStart s :
  try_keeps_limiter (fst (helloHttp_try config req requestStart s)) (rateLimitMap s)
    (rateLimitMap (snd (helloHttp_try config req requestStart s))).
Proof.
  unfold helloHttp_try, helloHttp_admitted, helloHttp_inject, helloHttp_dispatch.
  unfold bind, ret, gets; cbn beta iota; repeat limiter_step.
  all: cbn [fst snd]; unfold try_keeps_limiter.
  all: repeat match goal with
         | Hk : rateLimitMap ?x = _ |- context [rateLimitMap ?x] => rewrite Hk
         end.
  all: repeat match goal with
         | H : simulateError _ _ = (Some _, _) |- _ =>
             apply simulateError_kinds in H; simpl in H;
             destruct H as [H|[H|[H|[]]]]; inversion H; clear H
         end.
  all: split; [reflexivity|]; simpl; try discriminate; try exact I.
Qed.

(** Rate limiting inside the handler.  A preflight request is not counted
    against any client.  Every other request, whatever its outcome, makes
    exactly one step of the limiter on the key of its client (the
    forwarded-for header, else the remote address, else "unknown"), at the
    third clock reading of the request, and leaves the entries of all other
    clients; it is answered [rate_limit] exactly when that step denies. *)
Theorem helloHttp_rate_limiting (req : Request) (s : State) :
  let r := helloHttp config req s in
  let now := clock (world s) (ticks (world s) + 2)%nat in
  let stepped := entry_step config now (rateLimitMap s !! client_key req) in
  if String.eqb (method req) "OPTIONS"
  then rateLimitMap (snd r) = rateLimitMap s
  else rateLimitMap (snd r) = <[client_key req := snd stepped]> (rateLimitMap s) /\
       (error_type (fst r) = Some rate_limit <-> fst stepped = true).
Proof.
  intros r now stepped. subst r.
  unfold helloHttp.
  cbv beta iota delta [bind Date_now generateRequestId Math_random modify ret].
  destruct (String.eqb (method req) "OPTIONS") eqn:Em; [reflexivity|].
  rewrite checkRateLimit_run. fold (client_key req).
  match goal with
  | |- context [entry_step config (now_of ?s3) (rateLimitMap ?s3 !! _)] =>
      change (now_of s3) with (clock (world s) (S (S (ticks (world s)))));
      change (rateLimitMap s3) with (rateLimitMap s)
  end.
  replace (S (S (ticks (world s)))) with (ticks (world s) + 2)%nat by lia.
  fold now. fold stepped.
  set (s4 := with_rateLimitMap _ _).
  assert (Hs4 : rateLimitMap s4 = <[client_key req := snd stepped]> (rateLimitMap s))
    by reflexivity.
  clearbody s4. cbv beta iota.
  destruct (fst stepped) eqn:Elim; cbv beta iota.
  - pose proof (keeps_limiter (m := recordError) s4) as H1.
    destruct (recordError s4) as [[] s5]. cbn [snd] in H1.
    pose proof (keeps_limiter (m := measure (clock (world s) (ticks (world s)))) s5) as H2.
    destruct (measure _ s5) as [t s6]. cbn [fst snd] in *.
    split; [congruence|]. split; reflexivity.
  - pose proof (helloHttp_try_keeps_limiter req (clock (world s) (ticks (world s))) s4)
      as [H0 Hk].
    destruct (helloHttp_try config req _ s4) as [[response|] s5]; cbn [fst snd] in *.
    + split; [congruence|]. split; [intros H; contradiction|discriminate].
    + pose proof (keeps_limiter (m := recordError) s5) as H1.
      destruct (recordError s5) as [[] s6]. cbn [snd] in H1.
      pose proof (keeps_limiter (m := measure (clock (world s) (ticks (world s)))) s6) as H2.
      destruct (measure _ s6) as [t s7]. cbn [fst snd] in *.
      split; [congruence|]. split; discriminate.
Qed.

(** *** The breaker gate inside the handler *)

(** Bring the answers of the breaker gate, and the states read by the
    handler, into the goal, in terms of the core. *)
Ltac gate_answers :=
  repeat match goal with
         | H : isCircuitBreakerOpen _ ?x = (?b, _) |- _ =>
             apply (f_equal fst) in H; rewrite isCircuitBreakerOpen_answer in H;
             cbn [fst] in H; revert H
         | H : circuitBreakerState _ = _ |- _ => revert H
         end.

Ltac core_back_all :=
  repeat match goal with
         | Hc : core ?x = _ |- context [core ?x] => rewrite Hc
         end.

Lemma helloHttp_never_breaker_open req s :
  breaker_passing config (core s) ->
  never_breaker_open (fst (helloHttp config req s)).
Proof.
  intros Hpass. handler_steps.
  all: cbn [fst snd]; unfold never_breaker_open.
  all: gate_answers; fields_to_core; core_back_all.
  all: destruct (core s) as [[[[[[requests successes] errors] window] state] openTime] attempts].
  all: repeat match goal with
         | H : simulateError _ _ = (Some _, _) |- _ =>
             apply simulateError_kinds in H; simpl in H;
             destruct H as [H|[H|[H|[]]]]; inversion H; clear H
         end.
  all: simpl; try discriminate.
  all: unfold breaker_passing in Hpass; unfold core_isCircuitBreakerOpen.
  all: destruct Hpass as [->|[-> Hlen]]; simpl; try discriminate.
  all: match goal with
       | |- context [pruned ?c ?n ?w] =>
           pose proof (List.filter_length_le (fun t => n - t <? circuitBreakerWindow c) w);
           unfold pruned
       end.
  all: split_ifs; intros; try discriminate; lia.
Qed.

(** A breaker that is HALF_OPEN, or CLOSED with fewer entries in its window
    than [circuitBreakerThreshold], rejects nothing: the request is never
    answered [circuit_breaker_open], whatever the clock reads. *)
Theorem passing_breaker_never_rejects (req : Request) (s : State) :
  circuitBreakerState s = HALF_OPEN \/
  (circuitBreakerState s = CLOSED /\
   Z.of_nat (length (errorWindow s)) < circuitBreakerThreshold config) ->
  error_type (fst (helloHttp config req s)) <> Some circuit_breaker_open.
Proof.
  intros H. exact (helloHttp_never_breaker_open req s H).
Qed.

Instance Date_now_keeps_clock : KeepsClock Date_now.
Proof. intros s. reflexivity. Qed.

Instance generateRequestId_keeps_clock : KeepsClock generateRequestId.
Proof. intros s. reflexivity. Qed.

Instance count_request_keeps_clock f : KeepsClock (modify (with_serviceState f)).
Proof. intros s. reflexivity. Qed.

Instance checkRateLimit_keeps_clock ip : KeepsClock (checkRateLimit config ip).
Proof. intros s. rewrite checkRateLimit_run. reflexivity. Qed.

Instance checkServiceAvailability_keeps_clock : KeepsClock (checkServiceAvailability config).
Proof. intros s. unfold checkServiceAvailability. run_monad. split_ifs; reflexivity. Qed.




End Handler.

(** * Further properties *)

(** ** The life cycle of the breaker *)

Section BreakerCycle.

Variable config : Config.

(** The check answers [true] exactly when it leaves the breaker OPEN, and
    that happens in two cases only: CLOSED with a pruned window that has
    reached the threshold, or OPEN before the end of the recovery time.  In
    particular it never rejects while HALF_OPEN. *)
Theorem isCircuitBreakerOpen_rejects_iff (st : State) :
  let now := now_of st in
  let r := isCircuitBreakerOpen config st in
  (fst r = true <-> circuitBreakerState (snd r) = OPEN) /\
  (fst r = true <->
   (circuitBreakerState st = CLOSED /\
    circuitBreakerThreshold config
    <= Z.of_nat (length (pruned config now (errorWindow st)))) \/
   (circuitBreakerState st = OPEN /\
    now - num_of (circuitBreakerOpenTime st) < circuitBreakerRecovery config)).
Proof.
  intros now r. subst now r. unfold isCircuitBreakerOpen, now_of, pruned. run_monad.
  destruct (circuitBreakerState st) eqn:Est; simpl.
  - destruct (_ >=? circuitBreakerThreshold config) eqn:E; simpl;
      intuition (try discriminate; try congruence; try lia).
  - destruct (_ >=? circuitBreakerRecovery config) eqn:E; simpl;
      intuition (try discriminate; try congruence; try lia).
  - intuition (try discriminate; try congruence).
Qed.

(** After the check every timestamp left in the error window is younger
    than [circuitBreakerWindow], and the timestamps left are exactly those
    of the window that were. *)
Theorem isCircuitBreakerOpen_prunes (st : State) :
  let now := now_of st in
  let window' := errorWindow (snd (isCircuitBreakerOpen config st)) in
  Forall (fun t => now - t < circuitBreakerWindow config) window' /\
  (forall t, In t window' <->
             In t (errorWindow st) /\ now - t < circuitBreakerWindow config) /\
  (length window' <= length (errorWindow st))%nat.
Proof.
  intros now window'.
  assert (Hw : window' = pruned config now (errorWindow st)).
  { subst window' now. unfold isCircuitBreakerOpen, now_of, pruned. run_monad.
    destruct (circuitBreakerState st); simpl; split_ifs; reflexivity. }
  rewrite Hw. unfold pruned.
  assert (Hin : forall t, In t (List.filter (fun t => now - t <? circuitBreakerWindow config)
                                  (errorWindow st)) <->
                          In t (errorWindow st) /\ now - t < circuitBreakerWindow config).
  { intros t. rewrite filter_In, Z.ltb_lt. reflexivity. }
  split; [|split].
  - apply List.Forall_forall. intros t Ht. apply Hin in Ht. apply Ht.
  - exact Hin.
  - apply List.filter_length_le.
Qed.

(** [recordError] outside HALF_OPEN: one timestamp more, one error more,
    the breaker as it was. *)
Lemma recordError_plain st :
  circuitBreakerState st <> HALF_OPEN ->
  let s := snd (recordError st) in
  errorWindow s = errorWindow st ++ [now_of st] /\
  circuitBreakerState s = circuitBreakerState st /\
  circuitBreakerOpenTime s = circuitBreakerOpenTime st /\
  halfOpenAttempts s = halfOpenAttempts st /\
  clock (world s) = clock (world st) /\
  ticks (world s) = S (ticks (world st)) /\
  errorCount (serviceState s) = errorCount (serviceState st) + 1.
Proof.
  intros Hst. unfold recordError, now_of. run_monad.
  destruct (circuitBreakerState st) eqn:E; simpl; rewrite ?E; try congruence; repeat split.
Qed.

Lemma times_recordError (n : nat) : forall st,
  circuitBreakerState st <> HALF_OPEN ->
  let s := snd (times n recordError st) in
  errorWindow s
  = errorWindow st
    ++ map (fun i => clock (world st) (ticks (world st) + i)%nat) (seq 0 n) /\
  circuitBreakerState s = circuitBreakerState st /\
  circuitBreakerOpenTime s = circuitBreakerOpenTime st /\
  clock (world s) = clock (world st) /\
  ticks (world s) = (ticks (world st) + n)%nat /\
  errorCount (serviceState s) = errorCount (serviceState st) + Z.of_nat n.
Proof.
  induction n as [|n IH]; intros st Hst.
  - simpl. rewrite app_nil_r, Nat.add_0_r, Z.add_0_r. repeat split.
  - cbn [times]. unfold bind.
    destruct (recordError_plain st Hst) as (H1 & H2 & H3 & H4 & H5 & H6 & H7).
    destruct (recordError st) as [[] s1]. cbn [snd] in *.
    destruct (IH s1 ltac:(congruence)) as (G1 & G2 & G3 & G5 & G6 & G7).
    cbv zeta. rewrite G1, G2, G3, G5, G6, G7, H1, H2, H3, H5, H6, H7.
    repeat split; try lia.
    rewrite <- app_assoc. f_equal. cbn [seq map]. rewrite Nat.add_0_r.
    unfold now_of. cbn [app]. f_equal.
    rewrite <- seq_shift, map_map. apply map_ext. intros i. f_equal. lia.
Qed.

Lemma filter_all_kept (f : Z -> bool) (l : list Z) :
  Forall (fun t => f t = true) l -> List.filter f l = l.
Proof.
  induction 1 as [|t l Ht _ IH]; simpl; [reflexivity|]. rewrite Ht, IH. reflexivity.
Qed.

(** Enough failures trip the breaker: when [n >= circuitBreakerThreshold]
    errors are recorded while it is CLOSED and the next check comes while
    all of them are younger than [circuitBreakerWindow], that check answers
    [true] and opens the breaker at its own clock reading. *)
Theorem recorded_errors_trip_breaker (st : State) (n : nat) :
  circuitBreakerState st = CLOSED ->
  circuitBreakerThreshold config <= Z.of_nat n ->
  (forall i, (i < n)%nat ->
     clock (world st) (ticks (world st) + n)%nat
     - clock (world st) (ticks (world st) + i)%nat < circuitBreakerWindow config) ->
  let s := snd (times n recordError st) in
  let r := isCircuitBreakerOpen config s in
  errorCount (serviceState s) = errorCount (serviceState st) + Z.of_nat n /\
  fst r = true /\
  circuitBreakerState (snd r) = OPEN /\
  circuitBreakerOpenTime (snd r) = Some (clock (world st) (ticks (world st) + n)%nat).
Proof.
  intros Hst Hn Hyoung s r.
  destruct (times_recordError n st ltac:(congruence)) as (H1 & H2 & H3 & H5 & H6 & H7).
  fold s in H1, H2, H3, H5, H6, H7.
  assert (Hnow : now_of s = clock (world st) (ticks (world st) + n)%nat)
    by (unfold now_of; rewrite H5, H6; reflexivity).
  assert (Hlen : Z.of_nat n <= Z.of_nat (length (pruned config (now_of s) (errorWindow s)))).
  { unfold pruned. rewrite H1, List.filter_app, List.length_app.
    rewrite (filter_all_kept _ (map _ (seq 0 n))).
    - rewrite List.length_map, List.length_seq. lia.
    - apply List.Forall_forall. intros t Ht. apply in_map_iff in Ht.
      destruct Ht as (i & <- & Hi). apply in_seq in Hi.
      apply Z.ltb_lt. rewrite Hnow. apply Hyoung. lia. }
  split; [exact H7|].
  subst r. unfold isCircuitBreakerOpen. run_monad. rewrite H2, Hst. simpl.
  fold (now_of s). fold (pruned config (now_of s) (errorWindow s)).
  destruct (_ >=? circuitBreakerThreshold config) eqn:E; [|lia].
  simpl. rewrite Hnow. auto.
Qed.

(** A failed probe re-opens the breaker for a whole recovery period: after
    [recordError] while HALF_OPEN the breaker is OPEN since that failure,
    the half-open counter is back to 0, and the next check rejects exactly
    when it comes less than [circuitBreakerRecovery] after the failure. *)
Theorem failed_probe_reopens (st : State) :
  circuitBreakerState st = HALF_OPEN ->
  let s := snd (recordError st) in
  let r := isCircuitBreakerOpen config s in
  circuitBreakerState s = OPEN /\
  circuitBreakerOpenTime s = Some (now_of st) /\
  halfOpenAttempts s = 0 /\
  fst r = (now_of s - now_of st <? circuitBreakerRecovery config) /\
  circuitBreakerState (snd r) = (if fst r then OPEN else HALF_OPEN).
Proof.
  intros Hst s r. subst s r.
  unfold recordError, isCircuitBreakerOpen, now_of. run_monad. rewrite Hst. simpl.
  repeat split.
  - destruct (_ >=? circuitBreakerRecovery config) eqn:E; simpl; symmetry;
      [apply Z.ltb_ge|apply Z.ltb_lt]; lia.
  - destruct (_ >=? circuitBreakerRecovery config); reflexivity.
Qed.

(** Recovery: from an OPEN breaker, a check made once
    [circuitBreakerRecovery] has elapsed is let through and makes the breaker
    HALF_OPEN; [circuitBreakerHalfOpenRequests] successes in a row then close
    it, with the half-open counter back to 0 and nothing left in the window
    that is older than half of [circuitBreakerWindow]. *)
Theorem open_breaker_recovers (st : State) :
  circuitBreakerState st = OPEN ->
  circuitBreakerRecovery config <= now_of st - num_of (circuitBreakerOpenTime st) ->
  1 <= circuitBreakerHalfOpenRequests config ->
  let r := isCircuitBreakerOpen config st in
  let n := Z.to_nat (circuitBreakerHalfOpenRequests config) in
  let s := snd (times n (recordSuccess config) (snd r)) in
  fst r = false /\
  circuitBreakerState (snd r) = HALF_OPEN /\
  circuitBreakerState s = CLOSED /\
  halfOpenAttempts s = 0 /\
  Forall (fun t => 2 * (now_of (snd r) - t) < circuitBreakerWindow config) (errorWindow s) /\
  successCount (serviceState s) = successCount (serviceState st) + Z.of_nat n.
Proof.
  intros Hst Hrec Hn r n s.
  assert (Hr : fst r = false /\ circuitBreakerState (snd r) = HALF_OPEN /\
               halfOpenAttempts (snd r) = 0 /\
               successCount (serviceState (snd r)) = successCount (serviceState st)).
  { subst r. unfold isCircuitBreakerOpen, now_of in *. run_monad. rewrite Hst. simpl.
    destruct (_ >=? circuitBreakerRecovery config) eqn:E; [|lia]. simpl. auto. }
  destruct Hr as (Hr1 & Hr2 & Hr3 & Hr4).
  split; [exact Hr1|]. split; [exact Hr2|].
  assert (Hcount : forall k s0,
             successCount (serviceState (snd (times k (recordSuccess config) s0)))
             = successCount (serviceState s0) + Z.of_nat k).
  { induction k as [|k IH]; intros s0; [simpl; lia|].
    rewrite times_snoc. specialize (IH s0).
    set (s1 := snd (times k (recordSuccess config) s0)) in *.
    assert (successCount (serviceState (snd (recordSuccess config s1)))
            = successCount (serviceState s1) + 1).
    { unfold recordSuccess. run_monad.
      destruct (circuitBreakerState s1); simpl; split_ifs; reflexivity. }
    lia. }
  subst s. destruct n as [|m] eqn:En; [lia|].
  rewrite Hcount, Hr4. rewrite times_snoc.
  destruct (times_recordSuccess_probes config m (snd r) Hr2 ltac:(lia))
    as (H1 & H2 & H3 & H4 & H5).
  destruct (recordSuccess_close config _ H1 ltac:(lia)) as (G1 & G2 & G3 & G4).
  repeat split; try assumption.
  rewrite G3. unfold younger_half. apply List.Forall_forall. intros t Ht.
  apply filter_In in Ht. destruct Ht as [_ Ht]. apply Z.ltb_lt in Ht.
  unfold now_of in *. rewrite H5 in Ht. exact Ht.
Qed.

End BreakerCycle.

(** ** The map of the rate limiter *)

Section LimiterMap.

Variable config : Config.

(** A request is denied exactly when its key has an entry whose window has
    not elapsed and whose count, once incremented, exceeds [rateLimitMax].
    So the first request of a key, and the first request after a window, are
    allowed whatever [rateLimitMax] is, even 0 or negative. *)
Theorem checkRateLimit_denies_iff (ip : string) (st : State) :
  (fst (checkRateLimit config ip st) = true <->
   exists e, rateLimitMap st !! ip = Some e /\
             now_of st - start e <= rateLimitWindowMs config /\
             rateLimitMax config < count e + 1) /\
  (rateLimitMap st !! ip = None -> fst (checkRateLimit config ip st) = false).
Proof.
  rewrite checkRateLimit_run. cbn [fst]. unfold entry_step.
  destruct (rateLimitMap st !! ip) as [e|].
  - destruct (now_of st - start e >? rateLimitWindowMs config) eqn:E; cbn [fst].
    + split; [|discriminate]. split; [discriminate|].
      intros (e' & He' & Hw & _). injection He' as <-. lia.
    + split; [|discriminate]. split.
      * intros H. exists e. repeat split; lia.
      * intros (e' & He' & _ & Hc). injection He' as <-. lia.
  - split; [|reflexivity]. split; [discriminate|]. intros (e & He & _). discriminate.
Qed.

(** The limiter only ever writes the entry of the key it is called with and
    never removes an entry: after any run of calls the keys of the map are
    the keys it had plus the keys of the calls, and the entry of a key that
    made no call is untouched.  Every entry written has a count of at least
    1. *)
Theorem checkRateLimit_each_keys (ips : list string) : forall st,
  map_Forall (fun _ e => 1 <= count e) (rateLimitMap st) ->
  let m' := rateLimitMap (snd (checkRateLimit_each config ips st)) in
  dom m' = list_to_set ips ∪ dom (rateLimitMap st) /\
  (forall k, k ∉ ips -> m' !! k = rateLimitMap st !! k) /\
  map_Forall (fun _ e => 1 <= count e) m'.
Proof.
  induction ips as [|ip ips IH]; intros st Hinv.
  - simpl. split; [set_solver|]. split; [reflexivity|exact Hinv].
  - cbn [checkRateLimit_each]. unfold bind, ret. rewrite checkRateLimit_run.
    set (st1 := with_rateLimitMap _ (ticked st)).
    assert (Hinv1 : map_Forall (fun _ e => 1 <= count e) (rateLimitMap st1)).
    { subst st1. cbn. apply map_Forall_insert_2; [|exact Hinv].
      unfold entry_step. destruct (rateLimitMap st !! ip) as [e|] eqn:He; cbn; [|lia].
      destruct (_ >? rateLimitWindowMs config); cbn; [lia|].
      specialize (Hinv ip e He). cbn in Hinv. lia. }
    destruct (IH st1 Hinv1) as (Hdom & Hother & Hinv').
    destruct (checkRateLimit_each config ips st1) as [bs st2]. cbn [fst snd] in *.
    split; [|split; [|exact Hinv']].
    + rewrite Hdom. subst st1. cbn. rewrite dom_insert_L. cbn. set_solver.
    + intros k Hk. apply not_elem_of_cons in Hk. destruct Hk as [Hne Hk].
      rewrite (Hother k Hk). subst st1. cbn. apply lookup_insert_ne. congruence.
Qed.

End LimiterMap.

(** ** The schedulers *)

Section Schedulers.

Variable config : Config.

Lemma inject_Z_nonneg (z : Z) : 0 <= z -> (0 <= inject_Z z)%Q.
Proof. intros H. change 0%Q with (inject_Z 0). rewrite <- Zle_Qle. exact H. Qed.

(** A value drawn as [r * (hi - lo) + lo] with [0 <= r <= 1] and
    [lo <= hi] lies between [lo] and [hi]. *)
Lemma drawn_between (r : Q) (lo hi : Z) :
  (0 <= r)%Q -> (r <= 1)%Q -> lo <= hi ->
  (inject_Z lo <= r * inject_Z (hi - lo) + inject_Z lo)%Q /\
  (r * inject_Z (hi - lo) + inject_Z lo <= inject_Z hi)%Q.
Proof.
  intros H0 H1 Hle.
  assert (Hd : (0 <= inject_Z (hi - lo))%Q) by (apply inject_Z_nonneg; lia).
  assert (Hp : (0 <= r * inject_Z (hi - lo))%Q) by (apply Qmult_le_0_compat; assumption).
  assert (Hq : (r * inject_Z (hi - lo) <= 1 * inject_Z (hi - lo))%Q)
    by (apply Qmult_le_compat_r; assumption).
  assert (Hs : (inject_Z (hi - lo) == inject_Z hi - inject_Z lo)%Q).
  { unfold Z.sub. rewrite inject_Z_plus, inject_Z_opp. reflexivity. }
  split; lra.
Qed.

(** What a call of [checkServiceAvailability] does once no outage is
    pending (none was, or the pending one has just been cleared). *)
Lemma checkServiceAvailability_cases (st : State) :
  let now := now_of st in
  let ss := serviceState st in
  let r := checkServiceAvailability config st in
  (truthy_num (outageEndTime ss) = true ->
   (inject_Z now < Qof (outageEndTime ss))%Q ->
   fst r = false /\ serviceState (snd r) = ss /\
   draws (world (snd r)) = draws (world st)) /\
  ((truthy_num (outageEndTime ss) = true /\
    (Qof (outageEndTime ss) <= inject_Z now)%Q) \/
   (truthy_num (outageEndTime ss) = false /\ isHealthy ss = true) ->
   ((draw_of st < outageChance config)%Q ->
    fst r = false /\
    isHealthy (serviceState (snd r)) = false /\
    lastOutageStart (serviceState (snd r)) = Some now /\
    outageEndTime (serviceState (snd r))
    = Some (inject_Z now + drawn_outage config (second_draw_of st))%Q) /\
   ((outageChance config <= draw_of st)%Q ->
    fst r = true /\
    isHealthy (serviceState (snd r)) = true /\
    (truthy_num (outageEndTime ss) = true ->
     outageEndTime (serviceState (snd r)) = None /\
     lastOutageStart (serviceState (snd r)) = None) /\
    (truthy_num (outageEndTime ss) = false -> serviceState (snd r) = ss))) /\
  (truthy_num (outageEndTime ss) = false -> isHealthy ss = false ->
   fst r = false /\ serviceState (snd r) = ss /\
   draws (world (snd r)) = draws (world st)).
Proof.
  intros now ss r. subst now ss r.
  unfold checkServiceAvailability, now_of, draw_of, second_draw_of, drawn_outage.
  split; [|split].
  - intros Hset Hlt. apply Qltb_lt in Hlt. run_monad. rewrite Hset, Hlt. simpl. auto.
  - intros [[Hset Hge]|[Hset Hhealthy]].
    + pose proof Hge as Hge'. apply Qltb_ge in Hge. apply Qle_bool_iff in Hge'.
      split; intros Hdraw; [apply Qltb_lt in Hdraw|apply Qltb_ge in Hdraw];
        run_monad; rewrite Hset, Hge, Hge'; simpl; rewrite Hdraw; simpl;
        repeat split; intros; congruence.
    + split; intros Hdraw; [apply Qltb_lt in Hdraw|apply Qltb_ge in Hdraw];
        run_monad; rewrite Hset; simpl; rewrite Hhealthy; simpl; rewrite Hdraw; simpl;
        repeat split; intros; first [congruence | assumption].
  - intros Hset Hsick. run_monad. rewrite Hset. simpl. rewrite Hsick. simpl. auto.
Qed.

Lemma drawn_positive (now : Z) (r : Q) (lo hi : Z) :
  0 <= now -> (0 <= r)%Q -> 0 < lo -> lo <= hi ->
  (inject_Z now + inject_Z lo <= inject_Z now + (r * inject_Z (hi - lo) + inject_Z lo))%Q /\
  (inject_Z now < inject_Z now + (r * inject_Z (hi - lo) + inject_Z lo))%Q /\
  truthy_num (Some (inject_Z now + (r * inject_Z (hi - lo) + inject_Z lo))%Q) = true.
Proof.
  intros Hnow Hr Hlo Hle.
  assert (Hd : (0 <= inject_Z (hi - lo))%Q) by (apply inject_Z_nonneg; lia).
  assert (Hp : (0 <= r * inject_Z (hi - lo))%Q) by (apply Qmult_le_0_compat; assumption).
  assert (Hl : (0 < inject_Z lo)%Q) by (change 0%Q with (inject_Z 0); rewrite <- Zlt_Qlt; lia).
  assert (Hn : (0 <= inject_Z now)%Q) by (apply inject_Z_nonneg; lia).
  split; [lra|]. split; [lra|].
  apply truthy_num_Some. intros H. lra.
Qed.

(** With a clock that is not negative, outage durations that are positive
    and a draw that is not negative, [checkServiceAvailability] keeps the
    window and the flag in agreement, its answer is the flag it leaves, and
    whenever it answers [false] an end time strictly after [now] is set: a
    rejected caller can always be told when to retry, and an outage cannot
    last for ever. *)
Theorem checkServiceAvailability_consistent (st : State) :
  outage_consistent st ->
  0 <= now_of st ->
  0 < minOutageDuration config ->
  minOutageDuration config <= maxOutageDuration config ->
  (0 <= second_draw_of st)%Q ->
  let r := checkServiceAvailability config st in
  outage_consistent (snd r) /\
  fst r = isHealthy (serviceState (snd r)) /\
  (fst r = false ->
   exists e, outageEndTime (serviceState (snd r)) = Some e /\
             (inject_Z (now_of st) < e)%Q).
Proof.
  intros [Hh Hs] Hnow Hmin Hle Hr2 r. subst r.
  destruct (checkServiceAvailability_cases st) as (Hin & Hdraw & Hstuck).
  destruct (drawn_positive (now_of st) (second_draw_of st)
              (minOutageDuration config) (maxOutageDuration config) Hnow Hr2 Hmin Hle)
    as (_ & Hfuture & Htruthy).
  assert (Hfree :
    (truthy_num (outageEndTime (serviceState st)) = true /\
     (Qof (outageEndTime (serviceState st)) <= inject_Z (now_of st))%Q) \/
    (truthy_num (outageEndTime (serviceState st)) = false /\
     isHealthy (serviceState st) = true) ->
    let r := checkServiceAvailability config st in
    outage_consistent (snd r) /\
    fst r = isHealthy (serviceState (snd r)) /\
    (fst r = false ->
     exists e, outageEndTime (serviceState (snd r)) = Some e /\
               (inject_Z (now_of st) < e)%Q)).
  { intros Hcase. specialize (Hdraw Hcase). destruct Hdraw as [Hstart Hskip].
    destruct (Qlt_le_dec (draw_of st) (outageChance config)) as [Hd|Hd].
    - destruct (Hstart Hd) as (H1 & H2 & H3 & H4). cbv zeta.
      split; [|split].
      + split; intros H; [congruence|]. rewrite H4. exact Htruthy.
      + congruence.
      + intros _. eexists. split; [exact H4|exact Hfuture].
    - destruct (Hskip Hd) as (H1 & H2 & H3 & H4). cbv zeta.
      split; [|split].
      + split; intros H; [|congruence].
        destruct (Sumbool.sumbool_of_bool (truthy_num (outageEndTime (serviceState st))))
          as [E|E].
        * apply H3. exact E.
        * rewrite (H4 E). apply Hh.
          destruct Hcase as [[Hc _]|[_ Hc]]; [congruence|exact Hc].
      + congruence.
      + intros H. congruence. }
  destruct (Sumbool.sumbool_of_bool (truthy_num (outageEndTime (serviceState st))))
    as [Eset|Eset].
  - destruct (Qlt_le_dec (inject_Z (now_of st)) (Qof (outageEndTime (serviceState st))))
      as [Hlt|Hge].
    + destruct (Hin Eset Hlt) as (H1 & H2 & _).
      assert (Hsick : isHealthy (serviceState st) = false).
      { destruct (Sumbool.sumbool_of_bool (isHealthy (serviceState st))) as [E|E];
          [|exact E]. rewrite (Hh E) in Eset. discriminate Eset. }
      split; [|split].
      * unfold outage_consistent. rewrite H2. split; assumption.
      * rewrite H1, H2, Hsick. reflexivity.
      * intros _. rewrite H2.
        destruct (outageEndTime (serviceState st)) as [e|]; [|discriminate Eset].
        exists e. split; [reflexivity|exact Hlt].
    + apply Hfree. left. split; [exact Eset|exact Hge].
  - destruct (Sumbool.sumbool_of_bool (isHealthy (serviceState st))) as [E|E].
    + apply Hfree. right. split; [exact Eset|exact E].
    + rewrite (Hs E) in Eset. discriminate Eset.
Qed.

(** An outage lasts at least [minOutageDuration] and at most
    [maxOutageDuration]: when a call on a healthy service draws an outage at
    [now], every later call made less than [minOutageDuration] after [now]
    answers [false] without a draw, as long as the window is the one left by
    that call; and a call made [maxOutageDuration] or more after [now] finds
    the window elapsed: unless it draws a new outage it answers [true] and
    clears the window. *)
Theorem outage_lasts (st : State) :
  isHealthy (serviceState st) = true ->
  truthy_num (outageEndTime (serviceState st)) = false ->
  (draw_of st < outageChance config)%Q ->
  (0 <= second_draw_of st)%Q -> (second_draw_of st <= 1)%Q ->
  0 <= now_of st ->
  0 < minOutageDuration config ->
  minOutageDuration config <= maxOutageDuration config ->
  let r := checkServiceAvailability config st in
  fst r = false /\
  lastOutageStart (serviceState (snd r)) = Some (now_of st) /\
  (forall s',
     outageEndTime (serviceState s') = outageEndTime (serviceState (snd r)) ->
     now_of s' - now_of st < minOutageDuration config ->
     fst (checkServiceAvailability config s') = false /\
     serviceState (snd (checkServiceAvailability config s')) = serviceState s' /\
     draws (world (snd (checkServiceAvailability config s'))) = draws (world s')) /\
  (forall s',
     outageEndTime (serviceState s') = outageEndTime (serviceState (snd r)) ->
     maxOutageDuration config <= now_of s' - now_of st ->
     (outageChance config <= draw_of s')%Q ->
     fst (checkServiceAvailability config s') = true /\
     isHealthy (serviceState (snd (checkServiceAvailability config s'))) = true /\
     outageEndTime (serviceState (snd (checkServiceAvailability config s'))) = None).
Proof.
  intros Hhealthy Hnone Hdraw Hr0 Hr1 Hnow Hmin Hle r. subst r.
  destruct (checkServiceAvailability_cases st) as (_ & Hfree & _).
  destruct (Hfree (or_intror (conj Hnone Hhealthy))) as [Hstart _].
  destruct (Hstart Hdraw) as (H1 & H2 & H3 & H4).
  destruct (drawn_positive (now_of st) (second_draw_of st)
              (minOutageDuration config) (maxOutageDuration config) Hnow Hr0 Hmin Hle)
    as (Hlow & _ & Htruthy).
  destruct (drawn_between (second_draw_of st)
              (minOutageDuration config) (maxOutageDuration config) Hr0 Hr1 Hle)
    as (_ & Hhigh).
  split; [exact H1|]. split; [exact H3|]. split.
  - intros s' Hsame Hearly.
    destruct (checkServiceAvailability_cases s') as (Hin & _ & _).
    rewrite Hsame, H4 in Hin. apply Hin; [exact Htruthy|].
    change (Qof (Some ?q)) with q. unfold drawn_outage.
    assert (Hz : (inject_Z (now_of s') < inject_Z (now_of st + minOutageDuration config))%Q)
      by (rewrite <- Zlt_Qlt; lia).
    rewrite inject_Z_plus in Hz. lra.
  - intros s' Hsame Hlate Hskip.
    destruct (checkServiceAvailability_cases s') as (_ & Hfree' & _).
    rewrite Hsame, H4 in Hfree'.
    assert (Hz : (inject_Z (now_of st + maxOutageDuration config) <= inject_Z (now_of s'))%Q)
      by (rewrite <- Zle_Qle; lia).
    rewrite inject_Z_plus in Hz.
    destruct Hfree' as [_ Hclear].
    { left. split; [exact Htruthy|]. change (Qof (Some ?q)) with q.
      unfold drawn_outage. lra. }
    destruct (Hclear Hskip) as (G1 & G2 & G3 & _).
    split; [exact G1|]. split; [exact G2|]. apply G3. exact Htruthy.
Qed.

End Schedulers.

Section NormalPeriod.

Variable config : Config.

(** What a call of [isInNormalPeriod] does: inside a period it answers
    [true] and leaves everything but the clock; with no period, or an
    elapsed one, it makes the draw. *)
Lemma isInNormalPeriod_cases (st : State) :
  let now := now_of st in
  let ss := serviceState st in
  let r := isInNormalPeriod config st in
  (truthy_num (normalPeriodDuration ss) = true ->
   (inject_Z (now - normalPeriodStart ss) <= Qof (normalPeriodDuration ss))%Q ->
   fst r = true /\ serviceState (snd r) = ss /\
   draws (world (snd r)) = draws (world st)) /\
  ((truthy_num (normalPeriodDuration ss) = true /\
    (Qof (normalPeriodDuration ss) < inject_Z (now - normalPeriodStart ss))%Q) \/
   truthy_num (normalPeriodDuration ss) = false ->
   ((draw_of st < normalPeriodChance config)%Q ->
    fst r = truthy_num (Some (drawn_period config (second_draw_of st))) /\
    normalPeriodStart (serviceState (snd r)) = now /\
    normalPeriodDuration (serviceState (snd r))
    = Some (drawn_period config (second_draw_of st))) /\
   ((normalPeriodChance config <= draw_of st)%Q ->
    fst r = false /\
    truthy_num (normalPeriodDuration (serviceState (snd r))) = false /\
    normalPeriodStart (serviceState (snd r)) = normalPeriodStart ss /\
    (truthy_num (normalPeriodDuration ss) = true ->
     normalPeriodDuration (serviceState (snd r)) = None))).
Proof.
  intros now ss r. subst now ss r.
  unfold isInNormalPeriod, now_of, draw_of, second_draw_of, drawn_period.
  split.
  - intros Hset Hin. apply Qltb_ge in Hin. run_monad. rewrite Hset, Hin. simpl.
    rewrite Hset. simpl. rewrite Hset. auto.
  - intros [[Hset Hout]|Hset].
    + apply Qltb_lt in Hout.
      split; intros Hdraw; [apply Qltb_lt in Hdraw|apply Qltb_ge in Hdraw];
        run_monad; rewrite Hset, Hout; simpl;
        change (truthy_num None) with false; simpl; rewrite Hdraw; simpl; auto.
    + split; intros Hdraw; [apply Qltb_lt in Hdraw|apply Qltb_ge in Hdraw];
        run_monad; rewrite Hset; simpl; rewrite Hset; simpl; rewrite Hdraw; simpl;
        rewrite ?Hset; repeat split; auto; intros; congruence.
Qed.

(** A normal period lasts at least [minNormalPeriod] and at most
    [maxNormalPeriod]: when a call with no period running draws one at
    [now], every later call made at most [minNormalPeriod] after [now]
    answers [true] without a draw, as long as the period is the one left by
    that call; and a call made more than [maxNormalPeriod] after [now] finds
    it elapsed: unless it draws a new period it answers [false] and clears
    the period. *)
Theorem normal_period_lasts (st : State) :
  truthy_num (normalPeriodDuration (serviceState st)) = false ->
  (draw_of st < normalPeriodChance config)%Q ->
  (0 <= second_draw_of st)%Q -> (second_draw_of st <= 1)%Q ->
  0 < minNormalPeriod config ->
  minNormalPeriod config <= maxNormalPeriod config ->
  let r := isInNormalPeriod config st in
  fst r = true /\
  normalPeriodStart (serviceState (snd r)) = now_of st /\
  (forall s',
     normalPeriodStart (serviceState s') = normalPeriodStart (serviceState (snd r)) ->
     normalPeriodDuration (serviceState s') = normalPeriodDuration (serviceState (snd r)) ->
     now_of s' - now_of st <= minNormalPeriod config ->
     fst (isInNormalPeriod config s') = true /\
     serviceState (snd (isInNormalPeriod config s')) = serviceState s' /\
     draws (world (snd (isInNormalPeriod config s'))) = draws (world s')) /\
  (forall s',
     normalPeriodStart (serviceState s') = normalPeriodStart (serviceState (snd r)) ->
     normalPeriodDuration (serviceState s') = normalPeriodDuration (serviceState (snd r)) ->
     maxNormalPeriod config < now_of s' - now_of st ->
     (normalPeriodChance config <= draw_of s')%Q ->
     fst (isInNormalPeriod config s') = false /\
     normalPeriodDuration (serviceState (snd (isInNormalPeriod config s'))) = None).
Proof.
  intros Hnone Hdraw Hr0 Hr1 Hmin Hle r. subst r.
  destruct (isInNormalPeriod_cases st) as (_ & Hfree).
  destruct (Hfree (or_intror Hnone)) as [Hstart _].
  destruct (Hstart Hdraw) as (H1 & H2 & H3).
  destruct (drawn_between (second_draw_of st)
              (minNormalPeriod config) (maxNormalPeriod config) Hr0 Hr1 Hle)
    as (Hlow & Hhigh).
  fold (drawn_period config (second_draw_of st)) in Hlow, Hhigh.
  assert (Hl : (0 < inject_Z (minNormalPeriod config))%Q)
    by (change 0%Q with (inject_Z 0); rewrite <- Zlt_Qlt; lia).
  assert (Htruthy : truthy_num (Some (drawn_period config (second_draw_of st))) = true)
    by (apply truthy_num_Some; intros H; lra).
  split; [rewrite H1; exact Htruthy|]. split; [exact H2|]. split.
  - intros s' Hs Hd Hearly.
    destruct (isInNormalPeriod_cases s') as (Hin & _).
    rewrite Hs, Hd, H2, H3 in Hin. apply Hin; [exact Htruthy|].
    change (Qof (Some ?q)) with q.
    assert (Hz : (inject_Z (now_of s' - now_of st) <= inject_Z (minNormalPeriod config))%Q)
      by (rewrite <- Zle_Qle; lia).
    lra.
  - intros s' Hs Hd Hlate Hskip.
    destruct (isInNormalPeriod_cases s') as (_ & Hfree').
    rewrite Hs, Hd, H2, H3 in Hfree'.
    assert (Hz : (inject_Z (maxNormalPeriod config) < inject_Z (now_of s' - now_of st))%Q)
      by (rewrite <- Zlt_Qlt; lia).
    destruct Hfree' as [_ Hclear].
    { left. split; [exact Htruthy|]. change (Qof (Some ?q)) with q. lra. }
    destruct (Hclear Hskip) as (G1 & _ & _ & G4).
    split; [exact G1|]. apply G4. exact Htruthy.
Qed.

End NormalPeriod.

(** ** Error and delay injection *)

Section Injection.

Variable config : Config.

Lemma simulateError_partition (st : State) :
  (0 <= clientErrorChance config)%Q ->
  (0 <= timeoutChance config)%Q ->
  let rand := draw_of st in
  let r := simulateError config st in
  let server := serverErrorChance config in
  let client := clientErrorChance config in
  snd r = snd (Math_random st) /\
  ((rand < server)%Q <->
   option_map (fun e => (es_status e, es_type e)) (fst r) = Some (500, server_error)) /\
  ((server <= rand)%Q /\ (rand < server + client)%Q <->
   option_map (fun e => (es_status e, es_type e)) (fst r) = Some (400, client_error)) /\
  ((server + client <= rand)%Q /\ (rand < errorChance config)%Q <->
   option_map (fun e => (es_status e, es_type e)) (fst r) = Some (408, timeout)) /\
  ((errorChance config <= rand)%Q <-> fst r = None).
Proof.
  intros Hc Ht rand r server client. subst rand r server client.
  unfold simulateError, draw_of, errorChance. run_monad.
  set (rand := random (world st) (draws (world st))).
  destruct (Qltb rand (serverErrorChance config)) eqn:E1; simpl.
  { apply Qltb_lt in E1. split; [reflexivity|].
    repeat split; intros; first [reflexivity | assumption | discriminate | lra
                                | (destruct H; lra) ]. }
  apply Qltb_ge in E1.
  destruct (Qltb rand (serverErrorChance config + clientErrorChance config)) eqn:E2; simpl.
  { apply Qltb_lt in E2. split; [reflexivity|].
    repeat split; intros; first [reflexivity | assumption | discriminate | lra
                                | (destruct H; lra) ]. }
  apply Qltb_ge in E2.
  destruct (Qltb rand (serverErrorChance config + clientErrorChance config
                       + timeoutChance config)) eqn:E3; simpl.
  { apply Qltb_lt in E3. split; [reflexivity|].
    repeat split; intros; first [reflexivity | assumption | discriminate | lra
                                | (destruct H; lra) ]. }
  apply Qltb_ge in E3. split; [reflexivity|].
  repeat split; intros; first [reflexivity | assumption | discriminate | lra
                              | (destruct H; lra) ].
Qed.

(** [simulateError] cuts the draw into four consecutive bands: below
    [serverErrorChance] a 500 [server_error], then a [clientErrorChance]
    wide band of 400 [client_error], then a [timeoutChance] wide band of 408
    [timeout], and above their sum no error.  It makes exactly one draw and
    leaves the rest of the state. *)
Theorem simulateError_bands (st : State) :
  (0 <= clientErrorChance config)%Q ->
  (0 <= timeoutChance config)%Q ->
  let rand := draw_of st in
  let r := simulateError config st in
  let server := serverErrorChance config in
  let client := clientErrorChance config in
  snd r = snd (Math_random st) /\
  ((rand < server)%Q <->
   option_map (fun e => (es_status e, es_type e)) (fst r) = Some (500, server_error)) /\
  ((server <= rand)%Q /\ (rand < server + client)%Q <->
   option_map (fun e => (es_status e, es_type e)) (fst r) = Some (400, client_error)) /\
  ((server + client <= rand)%Q /\ (rand < errorChance config)%Q <->
   option_map (fun e => (es_status e, es_type e)) (fst r) = Some (408, timeout)) /\
  ((errorChance config <= rand)%Q <-> fst r = None).
Proof.
  exact (simulateError_partition st).
Qed.

(** The artificial delay is 0, after one draw, when that draw is not below
    [slowResponseChance]; otherwise a second draw in [0, 1] gives a delay
    between [minSlowDelay] and [maxSlowDelay].  No other part of the state
    is touched. *)
Theorem addDelay_bounds (st : State) :
  (0 <= second_draw_of st)%Q -> (second_draw_of st <= 1)%Q ->
  minSlowDelay config <= maxSlowDelay config ->
  let r := addDelay config st in
  ((slowResponseChance config <= draw_of st)%Q ->
   fst r = 0%Q /\ snd r = snd (Math_random st)) /\
  ((draw_of st < slowResponseChance config)%Q ->
   (inject_Z (minSlowDelay config) <= fst r)%Q /\
   (fst r <= inject_Z (maxSlowDelay config))%Q /\
   snd r = snd (Math_random (snd (Math_random st)))) /\
  serviceState (snd r) = serviceState st /\
  core (snd r) = core st /\
  rateLimitMap (snd r) = rateLimitMap st.
Proof.
  intros H0 H1 Hle r. subst r.
  destruct (drawn_between (second_draw_of st) (minSlowDelay config) (maxSlowDelay config)
              H0 H1 Hle) as [Hlow Hhigh].
  unfold addDelay, draw_of, second_draw_of in *. run_monad.
  destruct (Qltb _ (slowResponseChance config)) eqn:E; simpl.
  - apply Qltb_lt in E. repeat split; intros; first [lra | assumption | reflexivity].
  - apply Qltb_ge in E. repeat split; intros; first [lra | assumption | reflexivity].
Qed.

(** [helloHttp_inject], call by call. *)
Lemma helloHttp_inject_run (requestStart : Z) (st : State) :
  helloHttp_inject config requestStart st =
    let s1 := snd (Math_random st) in
    let s2 := snd (Math_random s1) in
    match fst (simulateError config st) with
    | Some e =>
        (Some (error_response (es_status e) (es_error e) (es_type e)),
         ticked (snd (recordError s1)))
    | None =>
        if Qltb (baseSuccessRate config) (second_draw_of st)
        then (Some (error_response 504 "Simulated network failure (gateway timeout)"
                      network_failure),
              ticked (snd (recordError s2)))
        else (None, s2)
    end.
Proof.
  assert (Hs : snd (simulateError config st) = snd (Math_random st)).
  { unfold simulateError. run_monad. split_ifs; reflexivity. }
  unfold helloHttp_inject. unfold bind at 1.
  destruct (simulateError config st) as [scenario s1]. cbn [fst snd] in *. subst s1.
  cbv zeta. destruct scenario as [e|].
  - unfold bind, ret, measure, ticked.
    destruct (recordError (snd (Math_random st))) as [[] s2]. reflexivity.
  - unfold bind at 1.
    rewrite (surjective_pairing (Math_random (snd (Math_random st)))) at 1.
    change (fst (Math_random (snd (Math_random st)))) with (second_draw_of st).
    cbv beta iota.
    destruct (Qltb (baseSuccessRate config) (second_draw_of st)); [|reflexivity].
    unfold bind, ret, measure, ticked.
    destruct (recordError (snd (Math_random (snd (Math_random st))))) as [[] s2].
    reflexivity.
Qed.

Lemma recordError_counts (s : State) :
  errorCount (serviceState (snd (recordError s))) = errorCount (serviceState s) + 1 /\
  errorWindow (snd (recordError s)) = errorWindow s ++ [now_of s].
Proof.
  unfold recordError, now_of. run_monad.
  destruct (circuitBreakerState s); simpl; split; reflexivity.
Qed.

(** Injection as a whole: a request that is not in a normal period goes on
    to the success path exactly when its first draw is not in an error band
    and its second draw does not exceed [baseSuccessRate]; it is dropped
    with 504 [network_failure] exactly when the first draw is not in an error
    band and the second exceeds [baseSuccessRate].  Every injected failure
    is recorded as one error with one timestamp; a request that goes on has
    touched neither the counters nor the breaker. *)
Theorem helloHttp_inject_outcome (requestStart : Z) (st : State) :
  (0 <= clientErrorChance config)%Q ->
  (0 <= timeoutChance config)%Q ->
  let r := helloHttp_inject config requestStart st in
  (fst r = None <->
   (errorChance config <= draw_of st)%Q /\ (second_draw_of st <= baseSuccessRate config)%Q) /\
  (option_map (fun resp => (res_status resp, error_type resp)) (fst r)
   = Some (504, Some network_failure) <->
   (errorChance config <= draw_of st)%Q /\ (baseSuccessRate config < second_draw_of st)%Q) /\
  (fst r = None -> core (snd r) = core st) /\
  (fst r <> None ->
   errorCount (serviceState (snd r)) = errorCount (serviceState st) + 1 /\
   exists t, errorWindow (snd r) = errorWindow st ++ [t]).
Proof.
  intros Hc Ht r. subst r.
  destruct (simulateError_partition st Hc Ht) as (_ & Hs & Hcl & Hto & Hnone).
  cbv zeta in *. rewrite helloHttp_inject_run. cbv zeta.
  destruct (fst (simulateError config st)) as [e|].
  - assert (Hband : ~ (errorChance config <= draw_of st)%Q).
    { intros H. apply Hnone in H. discriminate H. }
    assert (He : In (es_status e, es_type e)
                   [(500, server_error); (400, client_error); (408, timeout)]).
    { destruct (Qlt_le_dec (draw_of st) (serverErrorChance config)) as [H1|H1].
      - apply Hs in H1. cbn in H1. injection H1 as -> ->. cbn. auto.
      - destruct (Qlt_le_dec (draw_of st)
                    (serverErrorChance config + clientErrorChance config)) as [H2|H2].
        + pose proof (proj1 Hcl (conj H1 H2)) as H3. cbn in H3.
          injection H3 as -> ->. cbn. auto.
        + destruct (Qlt_le_dec (draw_of st) (errorChance config)) as [H3|H3]; [|contradiction].
          pose proof (proj1 Hto (conj H2 H3)) as H4. cbn in H4.
          injection H4 as -> ->. cbn. auto. }
    cbn [fst snd]. split; [|split; [|split]].
    + split; [discriminate|]. intros [H _]. contradiction.
    + split; [|intros [H _]; contradiction].
      cbn. intros H. cbn in He. destruct He as [He|[He|[He|[]]]]; congruence.
    + discriminate.
    + intros _. destruct (recordError_counts (snd (Math_random st))) as [H1 H2].
      split; [exact H1|]. eexists. exact H2.
  - assert (Hband : (errorChance config <= draw_of st)%Q) by (apply Hnone; reflexivity).
    destruct (Qltb (baseSuccessRate config) (second_draw_of st)) eqn:Ed; cbn [fst snd].
    + apply Qltb_lt in Ed. split; [|split; [|split]].
      * split; [discriminate|]. intros [_ H]. lra.
      * split; [intros _; split; assumption|reflexivity].
      * discriminate.
      * intros _.
        destruct (recordError_counts (snd (Math_random (snd (Math_random st))))) as [H1 H2].
        split; [exact H1|]. eexists. exact H2.
    + apply Qltb_ge in Ed. split; [|split; [|split]].
      * split; [intros _; split; assumption|reflexivity].
      * split; [discriminate|]. intros [_ H]. lra.
      * reflexivity.
      * congruence.
Qed.

End Injection.

(** ** The running mean of the response times *)

Section Average.


End Average.

(** * The properties on concrete inputs *)

(** ** Rate limiter *)

(** With the limits of the script, a client sends 52 requests: the first 51
    within the same instant, the last one 19 seconds later.  The 51st is
    denied, the last one is allowed. *)
Lemma checkRateLimit_window_witness :
  let r := checkRateLimit_each mao_config ((client :: repeat client 50) ++ [client])
             (initial (bursty_world 51)) in
  fst r !! 50%nat = Some true /\ fst r !! 51%nat = Some false.
Proof.
  assert (Hmax : 1 <= rateLimitMax mao_config) by (vm_compute; discriminate).
  assert (Hfresh : rateLimitMap (initial (bursty_world 51)) !! client = None \/
                   exists e, rateLimitMap (initial (bursty_world 51)) !! client = Some e /\
                             now_of (initial (bursty_world 51)) - start e
                             > rateLimitWindowMs mao_config)
    by (left; reflexivity).
  assert (Hwin : forall j, (client :: repeat client 50) !! j = Some client ->
            clock (world (initial (bursty_world 51)))
              (ticks (world (initial (bursty_world 51))) + j)%nat
            - now_of (initial (bursty_world 51)) <= rateLimitWindowMs mao_config).
  { intros j Hj. apply lookup_lt_Some in Hj.
    change (length (client :: repeat client 50)) with 51%nat in Hj.
    change (clock (world (initial (bursty_world 51)))
              (ticks (world (initial (bursty_world 51))) + j)%nat)
      with (if (S j <=? 51)%nat then 1000 else 20000).
    change (now_of (initial (bursty_world 51))) with 1000.
    change (rateLimitWindowMs mao_config) with 10000.
    destruct (Nat.leb_spec (S j) 51); lia. }
  assert (Hafter : clock (world (initial (bursty_world 51)))
                     (ticks (world (initial (bursty_world 51)))
                      + S (length (repeat client 50)))%nat
                   - now_of (initial (bursty_world 51)) > rateLimitWindowMs mao_config)
    by (vm_compute; reflexivity).
  destruct (checkRateLimit_window mao_config client (initial (bursty_world 51))
              (repeat client 50) Hmax Hfresh Hwin Hafter) as (_ & Hres & Hlast & _).
  split.
  - exact (Hres 50%nat eq_refl).
  - exact Hlast.
Defined.

(** A client over its limit is denied again twice within the window, a
    request of another client in between being allowed; 19 seconds later it
    is allowed. *)
Lemma checkRateLimit_denied_until_window_ends_witness :
  let st1 := snd (checkRateLimit mao_config client exhausted_state) in
  let r := checkRateLimit_each mao_config ["198.51.100.9"%string; client; client] st1 in
  fst r = [false; true; true] /\
  fst (checkRateLimit mao_config client (snd r)) = false.
Proof.
  assert (Hdenied : fst (checkRateLimit mao_config client exhausted_state) = true)
    by (vm_compute; reflexivity).
  assert (Hentry : rateLimitMap (snd (checkRateLimit mao_config client exhausted_state))
                     !! client = Some {| count := 51; start := 1000 |})
    by (vm_compute; reflexivity).
  assert (Hwin : forall j, ["198.51.100.9"%string; client; client] !! j = Some client ->
            clock (world (snd (checkRateLimit mao_config client exhausted_state)))
              (ticks (world (snd (checkRateLimit mao_config client exhausted_state))) + j)%nat
            - start {| count := 51; start := 1000 |} <= rateLimitWindowMs mao_config).
  { intros j Hj. apply lookup_lt_Some in Hj. simpl in Hj.
    destruct j as [|[|[|j]]]; try lia; vm_compute; discriminate. }
  assert (Hafter :
            clock (world (snd (checkRateLimit mao_config client exhausted_state)))
              (ticks (world (snd (checkRateLimit mao_config client exhausted_state)))
               + length ["198.51.100.9"%string; client; client])%nat
            - start {| count := 51; start := 1000 |} > rateLimitWindowMs mao_config)
    by (vm_compute; reflexivity).
  destruct (checkRateLimit_denied_until_window_ends mao_config client exhausted_state
              {| count := 51; start := 1000 |} ["198.51.100.9"%string; client; client]
              Hdenied Hentry Hwin Hafter) as (_ & _ & _ & _ & Hlast & _).
  split; [vm_compute; reflexivity|exact Hlast].
Defined.

(** ** Circuit breaker *)

(** The three transitions of the check, with the limits of the script:
    fifteen recent errors open the breaker; an open breaker rejects one
    second after opening; 29 seconds after opening it lets the request
    through and becomes HALF_OPEN. *)
Lemma isCircuitBreakerOpen_transitions_witness :
  (fst (isCircuitBreakerOpen mao_config failing_state) = true /\
   circuitBreakerState (snd (isCircuitBreakerOpen mao_config failing_state)) = OPEN /\
   circuitBreakerOpenTime (snd (isCircuitBreakerOpen mao_config failing_state)) = Some 2000) /\
  (fst (isCircuitBreakerOpen mao_config open_state) = true /\
   circuitBreakerState (snd (isCircuitBreakerOpen mao_config open_state)) = OPEN /\
   circuitBreakerOpenTime (snd (isCircuitBreakerOpen mao_config open_state)) = Some 1000) /\
  (fst (isCircuitBreakerOpen mao_config recovering_state) = false /\
   circuitBreakerState (snd (isCircuitBreakerOpen mao_config recovering_state)) = HALF_OPEN /\
   halfOpenAttempts (snd (isCircuitBreakerOpen mao_config recovering_state)) = 0).
Proof.
  split; [|split].
  - apply (proj1 (proj2 (isCircuitBreakerOpen_transitions mao_config failing_state))).
    + reflexivity.
    + vm_compute. discriminate.
  - apply (proj1 (proj2 (proj2 (isCircuitBreakerOpen_transitions mao_config open_state)))).
    + reflexivity.
    + vm_compute. reflexivity.
  - apply (proj2 (proj2 (proj2 (isCircuitBreakerOpen_transitions mao_config recovering_state)))).
    + reflexivity.
    + vm_compute. discriminate.
Defined.

(** Two successes close the half-open breaker of [half_open_state]. *)
Lemma recordSuccess_half_open_closes_witness :
  let s := snd (times 2 (recordSuccess mao_config) half_open_state) in
  circuitBreakerState s = CLOSED /\
  halfOpenAttempts s = 0 /\
  errorWindow s = younger_half mao_config 60000 [1000; 50000].
Proof.
  assert (Hn : 1 <= circuitBreakerHalfOpenRequests mao_config) by (vm_compute; discriminate).
  exact (proj2 (recordSuccess_half_open_closes mao_config half_open_state
                  eq_refl eq_refl Hn)).
Defined.

(** C2 as stated does not hold: when the two successes close the
    breaker at 60000, the window [1000; 50000] becomes [50000].  The recent
    entry is the one kept and the old one the one discarded, not the
    converse. *)
Lemma recordSuccess_keeps_newest_half :
  let s := snd (times 2 (recordSuccess mao_config) half_open_state) in
  circuitBreakerState half_open_state = HALF_OPEN /\
  halfOpenAttempts half_open_state = 0 /\
  errorWindow half_open_state = [1000; 50000] /\
  now_of half_open_state = 60000 /\
  circuitBreakerState s = CLOSED /\
  errorWindow s = [50000] /\
  ~ discards_newest_half mao_config 60000 (errorWindow half_open_state) (errorWindow s).
Proof.
  repeat split; try (vm_compute; reflexivity).
  unfold discards_newest_half. vm_compute. discriminate.
Qed.

(** An open breaker keeps its opening time through a rejected request. *)
Lemma open_breaker_has_open_time_witness :
  open_has_time (snd (helloHttp mao_config get_request open_state)) /\
  open_has_time (snd (recordError half_open_state)).
Proof.
  assert (Hopen : open_has_time open_state) by (intros _; discriminate).
  assert (Hhalf : open_has_time half_open_state) by (intros _; discriminate).
  destruct (open_breaker_has_open_time mao_config) as (_ & _ & Herror & _ & Hhandler & _).
  split; [exact (Hhandler get_request open_state Hopen)|exact (Herror half_open_state Hhalf)].
Defined.

(** ** Outage scheduler *)

(** During the outage of [unlucky_state] (started at 1000, ending at
    16000) the call made at 5000 answers [false] without a draw. *)
Lemma checkServiceAvailability_outage_window_witness :
  let s1 := snd (checkServiceAvailability mao_config unlucky_state) in
  fst (checkServiceAvailability mao_config s1) = false /\
  serviceState (snd (checkServiceAvailability mao_config s1)) = serviceState s1 /\
  draws (world (snd (checkServiceAvailability mao_config s1))) = draws (world s1).
Proof.
  assert (Hend : outageEndTime
                   (serviceState (snd (checkServiceAvailability mao_config unlucky_state)))
                 = Some (16000 # 1)%Q) by (vm_compute; reflexivity).
  assert (Hset : ~ ((16000 # 1) == 0)%Q) by (vm_compute; discriminate).
  apply (proj1 (checkServiceAvailability_outage_window mao_config
                  (snd (checkServiceAvailability mao_config unlucky_state))
                  (16000 # 1)%Q Hend Hset)).
  vm_compute. reflexivity.
Defined.

(** C8 as stated does not hold: the first call after the end of an
    outage makes the draw like any other call, and that draw can start the
    next outage.  In [unlucky_state] the first call (at 1000) starts an
    outage until 16000, the second (at 5000) is inside it, and the third (at
    20000, strictly after the end) answers [false] again, with a new outage
    window in place of a cleared one. *)
Lemma outage_redrawn_on_recovery :
  let r1 := checkServiceAvailability mao_config unlucky_state in
  let r2 := checkServiceAvailability mao_config (snd r1) in
  let r3 := checkServiceAvailability mao_config (snd r2) in
  fst r1 = false /\
  outageEndTime (serviceState (snd r1)) = Some (16000 # 1)%Q /\
  fst r2 = false /\
  now_of (snd r2) = 20000 /\
  ~ (fst r3 = true /\
     outageEndTime (serviceState (snd r3)) = None /\
     lastOutageStart (serviceState (snd r3)) = None /\
     isHealthy (serviceState (snd r3)) = true) /\
  fst r3 = false /\
  outageEndTime (serviceState (snd r3)) = Some (35000 # 1)%Q /\
  lastOutageStart (serviceState (snd r3)) = Some 20000 /\
  isHealthy (serviceState (snd r3)) = false.
Proof.
  repeat split; try (vm_compute; reflexivity).
  vm_compute. intros [H _]. discriminate.
Qed.

(** ** The handler *)



(** C3 as stated does not hold: a POST to /hello without [name] is
    answered 400 [validation_error] and its timestamp is appended to the
    error window. *)
Lemma validation_error_feeds_error_window :
  let r := helloHttp mao_config hello_without_name quiet_state in
  res_status (fst r) = 400 /\
  error_type (fst r) = Some validation_error /\
  errorWindow quiet_state = [] /\
  errorWindow (snd r) = [1000] /\
  errorWindow (snd r) <> errorWindow quiet_state.
Proof.
  repeat split; try (vm_compute; reflexivity).
  vm_compute. discriminate.
Qed.

(** The same request, read through the theorem: once it has passed the
    gates and resumes, its failure is appended to the window that
    [recordSuccess] left. *)
Lemma every_failure_feeds_error_window_witness :
  let arrived_at := snd (helloHttp_enter mao_config hello_without_name quiet_state) in
  let resumed := helloHttp_resume mao_config hello_without_name 1000 arrived_at in
  exists t, errorWindow (snd resumed)
            = errorWindow (snd (recordSuccess mao_config
                                  (snd (isInNormalPeriod mao_config arrived_at)))) ++ [t].
Proof.
  intros arrived_at resumed.
  destruct (every_failure_feeds_error_window mao_config hello_without_name 1000
              quiet_state arrived_at) as [_ H].
  assert (E : error_type (fst (helloHttp_resume mao_config hello_without_name 1000
                                 arrived_at)) = Some validation_error)
    by (vm_compute; reflexivity).
  rewrite E in H. exact H.
Defined.

(** C4 as stated does not hold: a preflight request is counted as a
    request and as neither success nor error. *)
Lemma preflight_breaks_count_equation :
  let r := helloHttp mao_config preflight_request quiet_state in
  let counters := serviceState (snd r) in
  res_status (fst r) = 204 /\
  requestCount (serviceState quiet_state)
  = successCount (serviceState quiet_state) + errorCount (serviceState quiet_state) /\
  requestCount counters = 1 /\ successCount counters = 0 /\ errorCount counters = 0 /\
  requestCount counters <> successCount counters + errorCount counters.
Proof.
  repeat split; try (vm_compute; reflexivity).
  vm_compute. discriminate.
Qed.

(** In [delaying_world] the first request is suspended for good: it passes
    the gates, draws a delay of 1250 ms, and is still waiting when the
    second request, which draws no delay, has been answered. *)
Lemma overlapping_first_request_delayed :
  let entered := helloHttp_enter mao_config get_request (initial delaying_world) in
  fst entered = inr 1000 /\
  draws (world (snd entered)) = 4%nat /\
  (fst (addDelay mao_config
          (snd (isCircuitBreakerOpen mao_config
                  (snd (checkServiceAvailability mao_config
                          (snd (checkRateLimit mao_config client
                                  (arrived (initial delaying_world))))))))) == 1250 # 1)%Q /\
  option_map res_status
    (head (fst (fst (run mao_config overlapping [] (initial delaying_world))))) = Some 200.
Proof.
  repeat split; vm_compute; reflexivity.
Qed.

(** Two overlapping GET requests: when the second has been answered and
    the first is still suspended, two requests are counted, one is recorded,
    and the difference is the request that waits. *)
Lemma request_counters_witness :
  let r := run mao_config overlapping [] (initial delaying_world) in
  let counters := serviceState (snd r) in
  requestCount counters = 2 /\
  successCount counters + errorCount counters = 1 /\
  length (snd (fst r)) = 1%nat /\
  requestCount counters
  = successCount counters + errorCount counters + how_many is_preflight overlapping
    + Z.of_nat (length (snd (fst r))) - how_many counted_twice (fst (fst r)).
Proof.
  split; [vm_compute; reflexivity|].
  split; [vm_compute; reflexivity|].
  split; [vm_compute; reflexivity|].
  destruct (request_counters mao_config) as (_ & _ & _ & H).
  exact (H overlapping delaying_world).
Defined.

(** C5 as stated does not hold: during a normal period, an admitted
    POST to /hello without [name] does not receive a success response but
    400 [validation_error]. *)
Lemma validation_error_in_normal_period :
  let r := helloHttp mao_config hello_without_name normal_period_state in
  let admitted :=
    (var inNormalPeriod := isInNormalPeriod mao_config ;;
     helloHttp_admitted mao_config hello_without_name 2000 "/hello" inNormalPeriod)
      normal_period_state in
  fst (isInNormalPeriod mao_config normal_period_state) = true /\
  option_map res_status (fst admitted) = Some 400 /\
  option_map error_type (fst admitted) = Some (Some validation_error) /\
  res_status (fst r) = 400 /\
  error_type (fst r) = Some validation_error /\
  res_status (fst r) <> 200.
Proof.
  repeat split; try (vm_compute; reflexivity).
  vm_compute. discriminate.
Qed.

(** During the normal period of [normal_period_state] a GET request is
    recorded as a success. *)
Lemma normal_period_suppresses_injection_witness :
  let r := (var inNormalPeriod := isInNormalPeriod mao_config ;;
            helloHttp_admitted mao_config get_request 2000 "/data" inNormalPeriod)
             normal_period_state in
  successCount (serviceState (snd r)) = successCount (serviceState normal_period_state) + 1.
Proof.
  assert (Hnormal : fst (isInNormalPeriod mao_config normal_period_state) = true)
    by (vm_compute; reflexivity).
  exact (proj1 (normal_period_suppresses_injection mao_config get_request 2000 "/data"
                  normal_period_state Hnormal)).
Defined.

(** ** Further properties on concrete inputs *)

(** Fifteen errors recorded at 1000 on the quiet, CLOSED service open the
    breaker at the next check. *)
Lemma recorded_errors_trip_breaker_witness :
  fst (isCircuitBreakerOpen mao_config (snd (times 15 recordError quiet_state))) = true.
Proof.
  assert (Hn : circuitBreakerThreshold mao_config <= Z.of_nat 15) by (vm_compute; discriminate).
  assert (Hyoung : forall i, (i < 15)%nat ->
            clock (world quiet_state) (ticks (world quiet_state) + 15)%nat
            - clock (world quiet_state) (ticks (world quiet_state) + i)%nat
            < circuitBreakerWindow mao_config) by (intros i _; vm_compute; reflexivity).
  exact (proj1 (proj2 (recorded_errors_trip_breaker mao_config quiet_state 15
                         eq_refl Hn Hyoung))).
Defined.

Lemma failed_probe_reopens_witness :
  circuitBreakerState (snd (recordError half_open_state)) = OPEN /\
  circuitBreakerOpenTime (snd (recordError half_open_state)) = Some 60000.
Proof.
  destruct (failed_probe_reopens mao_config half_open_state eq_refl) as (H1 & H2 & _).
  split; [exact H1|exact H2].
Defined.

Lemma open_breaker_recovers_witness :
  let r := isCircuitBreakerOpen mao_config recovering_state in
  fst r = false /\
  circuitBreakerState (snd (times 2 (recordSuccess mao_config) (snd r))) = CLOSED.
Proof.
  assert (Hrec : circuitBreakerRecovery mao_config
                 <= now_of recovering_state
                    - num_of (circuitBreakerOpenTime recovering_state))
    by (vm_compute; discriminate).
  assert (Hn : 1 <= circuitBreakerHalfOpenRequests mao_config) by (vm_compute; discriminate).
  destruct (open_breaker_recovers mao_config recovering_state eq_refl Hrec Hn)
    as (H1 & _ & H3 & _).
  split; [exact H1|exact H3].
Defined.

Lemma checkRateLimit_denies_iff_witness :
  fst (checkRateLimit mao_config client quiet_state) = false.
Proof.
  apply (proj2 (checkRateLimit_denies_iff mao_config client quiet_state)).
  reflexivity.
Defined.

Lemma checkRateLimit_each_keys_witness :
  dom (rateLimitMap (snd (checkRateLimit_each mao_config [client; other_client; client]
                            quiet_state)))
  = list_to_set [client; other_client; client] ∪ dom (rateLimitMap quiet_state).
Proof.
  assert (Hinv : map_Forall (fun (_ : string) e => 1 <= count e) (rateLimitMap quiet_state))
    by (apply map_Forall_empty).
  exact (proj1 (checkRateLimit_each_keys mao_config [client; other_client; client]
                  quiet_state Hinv)).
Defined.

Lemma checkServiceAvailability_consistent_witness :
  outage_consistent (snd (checkServiceAvailability mao_config unlucky_state)) /\
  fst (checkServiceAvailability mao_config unlucky_state) = false.
Proof.
  assert (Hinv : outage_consistent unlucky_state)
    by (split; intros H; [reflexivity|discriminate H]).
  assert (Hnow : 0 <= now_of unlucky_state) by (vm_compute; discriminate).
  assert (Hmin : 0 < minOutageDuration mao_config) by reflexivity.
  assert (Hle : minOutageDuration mao_config <= maxOutageDuration mao_config)
    by (vm_compute; discriminate).
  assert (Hr : (0 <= second_draw_of unlucky_state)%Q) by (vm_compute; discriminate).
  destruct (checkServiceAvailability_consistent mao_config unlucky_state
              Hinv Hnow Hmin Hle Hr) as (H1 & H2 & _).
  split; [exact H1|]. rewrite H2. vm_compute. reflexivity.
Defined.

Lemma outage_lasts_witness :
  fst (checkServiceAvailability mao_config unlucky_state) = false /\
  lastOutageStart (serviceState (snd (checkServiceAvailability mao_config unlucky_state)))
  = Some 1000.
Proof.
  assert (Hdraw : (draw_of unlucky_state < outageChance mao_config)%Q)
    by (vm_compute; reflexivity).
  assert (H0 : (0 <= second_draw_of unlucky_state)%Q) by (vm_compute; discriminate).
  assert (H1 : (second_draw_of unlucky_state <= 1)%Q) by (vm_compute; discriminate).
  assert (Hnow : 0 <= now_of unlucky_state) by (vm_compute; discriminate).
  assert (Hmin : 0 < minOutageDuration mao_config) by reflexivity.
  assert (Hle : minOutageDuration mao_config <= maxOutageDuration mao_config)
    by (vm_compute; discriminate).
  destruct (outage_lasts mao_config unlucky_state eq_refl eq_refl Hdraw H0 H1 Hnow Hmin Hle)
    as (G1 & G2 & _).
  split; [exact G1|exact G2].
Defined.

Lemma normal_period_lasts_witness :
  fst (isInNormalPeriod mao_config unlucky_state) = true /\
  normalPeriodStart (serviceState (snd (isInNormalPeriod mao_config unlucky_state))) = 1000.
Proof.
  assert (Hdraw : (draw_of unlucky_state < normalPeriodChance mao_config)%Q)
    by (vm_compute; reflexivity).
  assert (H0 : (0 <= second_draw_of unlucky_state)%Q) by (vm_compute; discriminate).
  assert (H1 : (second_draw_of unlucky_state <= 1)%Q) by (vm_compute; discriminate).
  assert (Hmin : 0 < minNormalPeriod mao_config) by reflexivity.
  assert (Hle : minNormalPeriod mao_config <= maxNormalPeriod mao_config)
    by (vm_compute; discriminate).
  destruct (normal_period_lasts mao_config unlucky_state eq_refl Hdraw H0 H1 Hmin Hle)
    as (G1 & G2 & _).
  split; [exact G1|exact G2].
Defined.

Lemma simulateError_bands_witness :
  fst (simulateError mao_config quiet_state) = None.
Proof.
  assert (Hc : (0 <= clientErrorChance mao_config)%Q) by (vm_compute; discriminate).
  assert (Ht : (0 <= timeoutChance mao_config)%Q) by (vm_compute; discriminate).
  destruct (simulateError_bands mao_config quiet_state Hc Ht) as (_ & _ & _ & _ & H).
  apply H. vm_compute. discriminate.
Defined.

Lemma addDelay_bounds_witness :
  fst (addDelay mao_config quiet_state) = 0%Q.
Proof.
  assert (H0 : (0 <= second_draw_of quiet_state)%Q) by (vm_compute; discriminate).
  assert (H1 : (second_draw_of quiet_state <= 1)%Q) by (vm_compute; discriminate).
  assert (Hle : minSlowDelay mao_config <= maxSlowDelay mao_config)
    by (vm_compute; discriminate).
  destruct (addDelay_bounds mao_config quiet_state H0 H1 Hle) as (H & _).
  apply H. vm_compute. discriminate.
Defined.

Lemma helloHttp_inject_outcome_witness :
  fst (helloHttp_inject mao_config 1000 quiet_state) = None.
Proof.
  assert (Hc : (0 <= clientErrorChance mao_config)%Q) by (vm_compute; discriminate).
  assert (Ht : (0 <= timeoutChance mao_config)%Q) by (vm_compute; discriminate).
  destruct (helloHttp_inject_outcome mao_config 1000 quiet_state Hc Ht) as (H & _).
  apply H. split; vm_compute; discriminate.
Defined.


Lemma helloHttp_breaker_state_witness :
  circuitBreakerState (snd (helloHttp_resume mao_config hello_without_name 60000
                              half_open_state))
  <> HALF_OPEN.
Proof.
  destruct (helloHttp_breaker_state mao_config hello_without_name 60000
              half_open_state half_open_state) as (_ & H & _).
  apply (H validation_error). vm_compute. reflexivity.
Defined.

Lemma passing_breaker_never_rejects_witness :
  error_type (fst (helloHttp mao_config reset_request half_open_state))
  <> Some circuit_breaker_open.
Proof.
  apply (passing_breaker_never_rejects mao_config reset_request half_open_state).
  left. reflexivity.
Defined.

